(** * osiris_utils: numerical post-processing utilities

    A shallow embedding of [osiris_utils/utils.py]: the Courant limit
    [courant2D], the run-cost formulas [time_estimation] and
    [filesize_estimation], the reduction [transverse_average] and the
    right-to-left cumulative integration [integrate].

    Python floats are idealised as real numbers: rounding, overflow,
    infinities and NaN are outside the model.  What Python's control flow
    does with them is kept: a true division whose divisor is zero raises
    [ZeroDivisionError], the rank checks raise [ValueError]. *)

From Stdlib Require Import Reals Lra Lia List Arith PeanoNat Bool.
From Stdlib Require String.
Import ListNotations.
Import String.StringSyntax.
Delimit Scope string_scope with string.

Open Scope R_scope.

(** ** Exceptions and results *)

Module Py.

(** The messages of the [ValueError]s that can be raised on the paths
    modelled here. *)
Inductive message : Type :=
  | MustBe2D                          (* "The input data must be a 2D array." *)
  | MustBe1D (shape : list nat)       (* f"Array must be 1D\n Array shape: {array.shape}" *)
  | AtLeastOnePoint.                  (* scipy: "At least one point is required along `axis`." *)

Inductive exn : Type :=
  | ValueError (msg : message)
  | ZeroDivisionError.

Inductive result (A : Type) : Type :=
  | Ok (a : A)
  | Raise (e : exn).

Arguments Ok {A} a.
Arguments Raise {A} e.

Definition bind {A B : Type} (m : result A) (k : A -> result B) : result B :=
  match m with
  | Ok a => k a
  | Raise e => Raise e
  end.

Definition raises {A : Type} (m : result A) : Prop :=
  exists e, m = Raise e.

Definition returns {A : Type} (m : result A) : Prop :=
  exists a, m = Ok a.

(** [x / y] on Python numbers: true division, [ZeroDivisionError] on a zero
    divisor. *)
Definition truediv (x y : R) : result R :=
  if Req_dec_T y 0 then Raise ZeroDivisionError else Ok (x / y).

End Py.

Import Py.

Declare Scope py_scope.
Delimit Scope py_scope with py.
Notation "x <- m ;; k" := (bind m (fun x => k))
  (at level 61, m at next level, right associativity) : py_scope.
Open Scope py_scope.

(** ** Scalar formulas *)

(** [np.sqrt] on a scalar. *)
Definition np_sqrt (x : R) : R := sqrt x.

(** [dt = 1 / (np.sqrt(1/dx**2 + 1/dy**2))].  The two inner quotients are
    Python divisions, evaluated left to right.  The outer divisor is a
    [numpy.float64]; it is nonzero whenever it is reached
    ([courant2D_divisor_pos]), so the outer quotient is a plain one. *)
Definition courant2D (dx dy : R) : result R :=
  a <- truediv 1 (dx ^ 2) ;;
  b <- truediv 1 (dy ^ 2) ;;
  let dt := 1 / np_sqrt (a + b) in
  Ok dt.

(** [time = (n_cells*ppc*push_time*t_steps)/n_cpu], then [time/3600] when
    [hours] is set. *)
Definition time_estimation (n_cells ppc push_time t_steps n_cpu : R)
    (hours : bool) : result R :=
  time <- truediv (n_cells * ppc * push_time * t_steps) n_cpu ;;
  if hours then truediv time 3600 else Ok time.

(** [n_gridpoints*4/(1024**2)]. *)
Definition filesize_estimation (n_gridpoints : R) : result R :=
  truediv (n_gridpoints * 4) (1024 ^ 2).

(** ** Arrays *)

(** A [numpy.ndarray] of floats: its shape and its elements in row-major
    (C) order. *)
Record ndarray : Type := mk_ndarray {
  shape : list nat;
  flat : list R
}.

Definition size_of (sh : list nat) : nat := fold_right Nat.mul 1%nat sh.

(** Every array numpy builds holds as many elements as its shape says. *)
Definition well_formed (a : ndarray) : Prop :=
  length (flat a) = size_of (shape a).

(** [len(a.shape)] *)
Definition ndim (a : ndarray) : nat := length (shape a).

(** A 1-D array from its elements. *)
Definition array1 (l : list R) : ndarray := mk_ndarray [length l] l.

(** A 2-D array from its rows, all of length [c]. *)
Definition array2 (c : nat) (rows : list (list R)) : ndarray :=
  mk_ndarray [length rows; c] (concat rows).

(** [a[i, j]] of a 2-D array with [c] columns. *)
Definition item2 (a : ndarray) (c i j : nat) : R := nth (i * c + j) (flat a) 0.

Module Numpy.

(** The sum of a run of elements, accumulated from the left. *)
Definition add_reduce (l : list R) : R := fold_left Rplus l 0.

(** The [r] consecutive runs of [c] elements of a row-major buffer. *)
Fixpoint rows_of (r c : nat) (buf : list R) : list (list R) :=
  match r with
  | O => []
  | S r' => firstn c buf :: rows_of r' c (skipn c buf)
  end.

(** [np.mean(a, axis=1)] of a 2-D array: the sum along the second axis
    divided by the number of columns.  On arrays of another rank the
    function is not used; they are returned as they are. *)
Definition mean_axis1 (a : ndarray) : ndarray :=
  match shape a with
  | [r; c] =>
      mk_ndarray [r] (map (fun row => add_reduce row / INR c) (rows_of r c (flat a)))
  | _ => a
  end.

(** [np.flip] of a 1-D array. *)
Definition flip (a : ndarray) : ndarray := mk_ndarray (shape a) (rev (flat a)).

(** Unary minus, elementwise. *)
Definition negative (a : ndarray) : ndarray :=
  mk_ndarray (shape a) (map Ropp (flat a)).

(** [np.cumsum] of a 1-D buffer. *)
Fixpoint cumsum_from (acc : R) (l : list R) : list R :=
  match l with
  | [] => []
  | x :: t => (acc + x) :: cumsum_from (acc + x) t
  end.

Definition cumsum (l : list R) : list R := cumsum_from 0 l.

(** [l[:-k]] *)
Definition drop_last (k : nat) (l : list R) : list R := firstn (length l - k) l.

(** [l[::2]] *)
Fixpoint stride2 (l : list R) : list R :=
  match l with
  | [] => []
  | x :: t => x :: match t with
                   | [] => []
                   | _ :: t' => stride2 t'
                   end
  end.

(** [a[::2] = v] *)
Fixpoint set_stride2 (a v : list R) : list R :=
  match a, v with
  | _ :: t, x :: v' => x :: match t with
                            | [] => []
                            | y :: t' => y :: set_stride2 t' v'
                            end
  | _, _ => a
  end.

(** [a[start:stop:2] = v] for [start <= stop <= len(a)] *)
Definition set_slice2 (start stop : nat) (a v : list R) : list R :=
  firstn start a
  ++ set_stride2 (firstn (stop - start) (skipn start a)) v
  ++ skipn stop a.

(** [a[-1] = x] on a nonempty buffer *)
Definition set_last (a : list R) (x : R) : list R := drop_last 1 a ++ [x].

(** [np.empty(n)]: [n] cells of unspecified content; every cell is
    assigned before it is read. *)
Definition empty (n : nat) : list R := repeat 0 n.

(** Elementwise combination of two buffers of equal length. *)
Fixpoint zip_with (f : R -> R -> R) (a b : list R) : list R :=
  match a, b with
  | x :: a', y :: b' => f x y :: zip_with f a' b'
  | _, _ => []
  end.

End Numpy.

(** ** scipy.integrate, for 1-D [y], scalar [dx], [axis = -1] *)

Module Scipy.

Import Numpy.

(** [cumulative_trapezoid(y, dx=dx, initial=None)]:
    [np.cumsum(d * (y[1:] + y[:-1]) / 2.0)], after the check that [y] has
    at least one point. *)
Definition cumulative_trapezoid (y : list R) (dx : R) : result (list R) :=
  if (length y =? 0)%nat then Raise (ValueError AtLeastOnePoint)
  else
    let d := dx in
    Ok (cumsum (zip_with (fun y1 y2 => d * (y1 + y2) / 2) (skipn 1 y) (drop_last 1 y))).

(** [d / 3 * (5 * f1 / 4 + 2 * f2 - f3 / 4)], elementwise. *)
Fixpoint simpson_h1 (d f1 f2 f3 : list R) : list R :=
  match d, f1, f2, f3 with
  | di :: d', a :: f1', b :: f2', c :: f3' =>
      (di / 3 * (5 * a / 4 + 2 * b - c / 4)) :: simpson_h1 d' f1' f2' f3'
  | _, _, _, _ => []
  end.

(** [_cumulative_simpson_equal_intervals(y, dx)] *)
Definition cumulative_simpson_equal_intervals (y dx : list R) : list R :=
  let d := drop_last 1 dx in
  let f1 := drop_last 2 y in
  let f2 := drop_last 1 (skipn 1 y) in
  let f3 := skipn 2 y in
  simpson_h1 d f1 f2 f3.

(** [_cumulatively_sum_simpson_integrals(y, dx, integration_func)] *)
Definition cumulatively_sum_simpson_integrals (y dx : list R)
    (integration_func : list R -> list R -> list R) : list R :=
  let sub_integrals_h1 := integration_func y dx in
  let sub_integrals_h2 := rev (integration_func (rev y) (rev dx)) in
  let len := S (length sub_integrals_h1) in
  let sub_integrals := empty len in
  let sub_integrals := set_slice2 0 (len - 1) sub_integrals (stride2 sub_integrals_h1) in
  let sub_integrals := set_slice2 1 len sub_integrals (stride2 sub_integrals_h2) in
  let sub_integrals := set_last sub_integrals (last sub_integrals_h2 0) in
  cumsum sub_integrals.

(** [cumulative_simpson(y, dx=dx, initial=initial)]: fewer than three
    points fall back to [cumulative_trapezoid]; [dx] is broadcast to one
    entry per interval; a given [initial] is added to every value and put
    in front. *)
Definition cumulative_simpson (y : list R) (dx : R) (initial : option R)
    : result (list R) :=
  res <- (if (length y <? 3)%nat then cumulative_trapezoid y dx
          else
            let dx := repeat dx (length y - 1) in
            Ok (cumulatively_sum_simpson_integrals y dx
                  cumulative_simpson_equal_intervals)) ;;
  match initial with
  | None => Ok res
  | Some initial =>
      let res := map (fun r => r + initial) res in
      Ok ([initial] ++ res)
  end.

End Scipy.

(** ** Reductions of [utils.py] *)

(** [transverse_average(data)] *)
Definition transverse_average (data : ndarray) : result ndarray :=
  if negb (ndim data =? 2)%nat then Raise (ValueError MustBe2D)
  else Ok (Numpy.mean_axis1 data).

(** [integrate(array, dx)] *)
Definition integrate (array : ndarray) (dx : R) : result ndarray :=
  if negb (ndim array =? 1)%nat then Raise (ValueError (MustBe1D (shape array)))
  else
    let flip_array := Numpy.flip array in
    int <- Scipy.cumulative_simpson (flat flip_array) dx (Some 0) ;;
    let int := Numpy.negative (array1 int) in
    Ok (Numpy.flip int).

(** ** The specification's reading of the same operations *)

Module Spec.

(** The arithmetic mean of row [i] of a 2-D array with [c] columns:
    the sum of [a[i, 0] .. a[i, c-1]] over [c]. *)
Fixpoint row_sum (a : ndarray) (c i k : nat) : R :=
  match k with
  | O => 0
  | S k' => row_sum a c i k' + item2 a c i k'
  end.

Definition row_mean (a : ndarray) (c i : nat) : R := row_sum a c i c / INR c.

(** The integral over one interval of width [dx] of the straight line
    through its two end samples. *)
Definition linear_panel (dx f0 f1 : R) : R := dx * (f0 + f1) / 2.

(** The integrals over the left and over the right interval of the
    parabola through three consecutive samples [f0 f1 f2], [dx] apart. *)
Definition quadratic_left (dx f0 f1 f2 : R) : R := dx / 12 * (5 * f0 + 8 * f1 - f2).
Definition quadratic_right (dx f0 f1 f2 : R) : R := dx / 12 * (5 * f2 + 8 * f1 - f0).

(** The integral over the interval between samples [j] and [j+1] of [n]
    samples [z]: intervals are taken in pairs, each pair under one
    parabola; a last interval left alone is the right interval of the
    parabola through the last three samples; with two samples only, the
    single interval is linear. *)
Definition panel (z : nat -> R) (n : nat) (dx : R) (j : nat) : R :=
  if (n <? 3)%nat then linear_panel dx (z j) (z (j + 1)%nat)
  else if Nat.even j && (j + 2 <? n)%nat
       then quadratic_left dx (z j) (z (j + 1)%nat) (z (j + 2)%nat)
       else quadratic_right dx (z (j - 1)%nat) (z j) (z (j + 1)%nat).

(** The accumulator: 0 at the first sample, then one interval at a time. *)
Fixpoint cumulative (z : nat -> R) (n : nat) (dx : R) (k : nat) : R :=
  match k with
  | O => 0
  | S k' => cumulative z n dx k' + panel z n dx k'
  end.

(** The cumulative composite-Simpson integral of the samples [z]. *)
Definition cumulative_simpson (z : list R) (dx : R) : list R :=
  map (cumulative (fun i => nth i z 0) (length z) dx) (seq 0 (length z)).

(** Reverse, integrate cumulatively from zero, negate, reverse back. *)
Definition integrate (profile : list R) (dx : R) : list R :=
  rev (map Ropp (cumulative_simpson (rev profile) dx)).

(** The classical composite Simpson sum over the first [m] pairs of
    intervals. *)
Fixpoint composite_simpson (z : nat -> R) (dx : R) (m : nat) : R :=
  match m with
  | O => 0
  | S m' => composite_simpson z dx m'
            + dx / 3 * (z (2 * m')%nat + 4 * z (2 * m' + 1)%nat + z (2 * m' + 2)%nat)
  end.

End Spec.

(** Modelled from the spec: [longitudinal_profile(field, dx)] of the
    DiagnosticsPipeline is not a function of [utils.py]; section 4.5 gives
    it as [transverse_average(field)] followed by [integrate(result, dx)],
    the first failure of either stage coming out unchanged. *)
Definition longitudinal_profile (field : ndarray) (dx : R) : result ndarray :=
  match transverse_average field with
  | Raise e => Raise e
  | Ok profile =>
      match integrate profile dx with
      | Raise e => Raise e
      | Ok integrated_profile => Ok integrated_profile
      end
  end.

(** ** Operations used to state properties of the reductions *)

(** [k * a] for a scalar [k]. *)
Definition scale (k : R) (a : ndarray) : ndarray :=
  mk_ndarray (shape a) (map (Rmult k) (flat a)).

(** [a + b] for two arrays of one shape. *)
Definition add_arrays (a b : ndarray) : ndarray :=
  mk_ndarray (shape a) (Numpy.zip_with Rplus (flat a) (flat b)).

(** The [n] samples [p(x0), p(x0 + dx), ...] of a function on a uniform
    grid. *)
Definition sampled (p : R -> R) (x0 dx : R) (n : nat) : list R :=
  map (fun i => p (x0 + INR i * dx)) (seq 0 n).

(** A parabola and its antiderivative. *)
Definition parabola (a b c t : R) : R := a * t ^ 2 + b * t + c.
Definition parabola_primitive (a b c t : R) : R :=
  a * t ^ 3 / 3 + b * t ^ 2 / 2 + c * t.

(** ** Persistence: [save_data] and [read_data] *)

Module IO.

(** What a call can raise: the [ValueError] of [save_data] itself
    ("Option must be 'numpy' or 'pandas'."), or whatever the library call
    raises. *)
Inductive raised (E : Type) : Type :=
  | OptionValueError
  | LibraryError (e : E).

Arguments OptionValueError {E}.
Arguments LibraryError {E} e.

(** The library calls the two functions are thin wrappers of, over a file
    system [FS]: [np.savetxt(savename, data)],
    [pd.DataFrame(data).to_csv(savename, index=False)],
    [np.loadtxt(filename)] and [pd.read_csv(filename).values]. *)
Record library (FS D E : Type) : Type := mk_library {
  np_savetxt : String.string -> D -> FS -> FS * option E;
  pd_to_csv : String.string -> D -> FS -> FS * option E;
  np_loadtxt : String.string -> FS -> D + E;
  pd_read_csv_values : String.string -> FS -> D + E
}.

Arguments np_savetxt {FS D E} l.
Arguments pd_to_csv {FS D E} l.
Arguments np_loadtxt {FS D E} l.
Arguments pd_read_csv_values {FS D E} l.

Definition lift_error {E : Type} (r : option E) : option (raised E) :=
  match r with
  | None => None
  | Some e => Some (LibraryError e)
  end.

(** [save_data(data, savename, option="numpy")]: the file system after the
    call and the exception raised, if any. *)
Definition save_data {FS D E : Type} (lib : library FS D E)
    (data : D) (savename : String.string) (option : String.string) (fs : FS)
    : FS * Datatypes.option (raised E) :=
  if String.eqb option "numpy" then
    let (fs', r) := np_savetxt lib savename data fs in (fs', lift_error r)
  else if String.eqb option "pandas" then
    let (fs', r) := pd_to_csv lib savename data fs in (fs', lift_error r)
  else (fs, Some OptionValueError).

(** [read_data(filename, option="numpy")]:
    [np.loadtxt(filename) if option == "numpy" else pd.read_csv(filename).values] *)
Definition read_data {FS D E : Type} (lib : library FS D E)
    (filename : String.string) (option : String.string) (fs : FS) : D + E :=
  if String.eqb option "numpy" then np_loadtxt lib filename fs
  else pd_read_csv_values lib filename fs.

(** A stand-in library for worked inputs: files are kept as tagged
    values, each reader accepts its own writer's files only. *)
Inductive toy_file : Type :=
  | TxtFile (d : list R)
  | CsvFile (d : list R).

Inductive toy_error : Type :=
  | FileNotFound
  | ParseError.

Definition toy_fs : Type := list (String.string * toy_file).

Fixpoint toy_lookup (name : String.string) (fs : toy_fs) : option toy_file :=
  match fs with
  | [] => None
  | (k, f) :: rest => if String.eqb k name then Some f else toy_lookup name rest
  end.

Definition toy_library : library toy_fs (list R) toy_error :=
  mk_library toy_fs (list R) toy_error
    (fun name d fs => ((name, TxtFile d) :: fs, None))
    (fun name d fs => ((name, CsvFile d) :: fs, None))
    (fun name fs => match toy_lookup name fs with
                    | Some (TxtFile d) => inl d
                    | Some (CsvFile _) => inr ParseError
                    | None => inr FileNotFound
                    end)
    (fun name fs => match toy_lookup name fs with
                    | Some (CsvFile d) => inl d
                    | Some (TxtFile _) => inr ParseError
                    | None => inr FileNotFound
                    end).

End IO.

(** * Properties *)

(** ** Python division *)

Lemma truediv_nonzero (x y : R) : y <> 0 -> truediv x y = Ok (x / y).
Proof.
  intros Hy. unfold truediv. destruct (Req_dec_T y 0) as [E | _]; [contradiction | reflexivity].
Qed.

Lemma truediv_zero (x : R) : truediv x 0 = Raise ZeroDivisionError.
Proof.
  unfold truediv. destruct (Req_dec_T 0 0) as [_ | N]; [reflexivity | now elim N].
Qed.

Lemma ok_not_raises {A : Type} (a : A) : ~ raises (Ok a).
Proof. intros [e He]. discriminate He. Qed.

Lemma raise_raises {A : Type} (e : exn) : raises (@Raise A e).
Proof. now exists e. Qed.

Lemma sq_nonzero (x : R) : x <> 0 -> x ^ 2 <> 0.
Proof. intros Hx. apply pow_nonzero. exact Hx. Qed.

Lemma sq_zero_inv (x : R) : x ^ 2 = 0 -> x = 0.
Proof. intros H. destruct (Req_dec_T x 0) as [E | N]; [exact E | now apply sq_nonzero in N]. Qed.

(** ** The Courant limit *)

Lemma inv_sq_pos (x : R) : x <> 0 -> 0 < 1 / x ^ 2.
Proof.
  intros Hx. apply Rdiv_lt_0_compat; [lra |].
  assert (0 <= x ^ 2) by (simpl; nra).
  assert (x ^ 2 <> 0) by now apply sq_nonzero.
  lra.
Qed.

(** The divisor of the outer quotient of [courant2D] is positive whenever
    the two inner divisions succeed. *)
Lemma courant2D_divisor_pos (dx dy : R) :
  dx <> 0 -> dy <> 0 -> 0 < np_sqrt (1 / dx ^ 2 + 1 / dy ^ 2).
Proof.
  intros Hx Hy. unfold np_sqrt. apply sqrt_lt_R0.
  pose proof (inv_sq_pos dx Hx). pose proof (inv_sq_pos dy Hy). lra.
Qed.

Lemma courant2D_nonzero (dx dy : R) :
  dx <> 0 -> dy <> 0 ->
  courant2D dx dy = Ok (1 / sqrt (1 / dx ^ 2 + 1 / dy ^ 2)).
Proof.
  intros Hx Hy. unfold courant2D.
  rewrite (truediv_nonzero 1 (dx ^ 2)) by now apply sq_nonzero.
  cbn [bind].
  rewrite (truediv_nonzero 1 (dy ^ 2)) by now apply sq_nonzero.
  reflexivity.
Qed.

Lemma courant2D_zero (dx dy : R) :
  dx = 0 \/ dy = 0 -> courant2D dx dy = Raise ZeroDivisionError.
Proof.
  intros H. unfold courant2D, truediv.
  destruct (Req_dec_T (dx ^ 2) 0) as [Ex | Nx]; [reflexivity |].
  cbn [bind].
  destruct (Req_dec_T (dy ^ 2) 0) as [Ey | Ny]; [reflexivity |].
  exfalso. destruct H as [-> | ->]; [apply Nx | apply Ny]; simpl; lra.
Qed.

Lemma sqrt_two_over_sq (dx : R) :
  0 < dx -> sqrt (1 / dx ^ 2 + 1 / dx ^ 2) = sqrt 2 / dx.
Proof.
  intros Hx.
  replace (1 / dx ^ 2 + 1 / dx ^ 2) with (2 * (/ dx) ^ 2) by (field; lra).
  rewrite sqrt_mult_alt by lra.
  rewrite sqrt_pow2; [reflexivity |].
  left. now apply Rinv_0_lt_compat.
Qed.

(** C6: for positive spacings the limit is [1 / sqrt(1/dx^2 + 1/dy^2)], it
    is strictly positive, and on a square grid it is [dx / sqrt 2]. *)
Theorem courant2D_formula (dx dy : R) :
  0 < dx -> 0 < dy ->
  courant2D dx dy = Ok (1 / sqrt (1 / dx ^ 2 + 1 / dy ^ 2))
  /\ 0 < 1 / sqrt (1 / dx ^ 2 + 1 / dy ^ 2)
  /\ courant2D dx dx = Ok (dx / sqrt 2).
Proof.
  intros Hx Hy.
  assert (Nx : dx <> 0) by lra. assert (Ny : dy <> 0) by lra.
  split; [now apply courant2D_nonzero |]. split.
  - apply Rdiv_lt_0_compat; [lra |]. now apply courant2D_divisor_pos.
  - rewrite courant2D_nonzero by assumption.
    rewrite sqrt_two_over_sq by assumption.
    assert (0 < sqrt 2) by (apply sqrt_lt_R0; lra).
    f_equal. field. split; lra.
Qed.

Lemma courant2D_formula_witness :
  courant2D 3 4 = Ok (1 / sqrt (1 / 3 ^ 2 + 1 / 4 ^ 2))
  /\ 0 < 1 / sqrt (1 / 3 ^ 2 + 1 / 4 ^ 2)
  /\ courant2D 3 3 = Ok (3 / sqrt 2).
Proof. apply (courant2D_formula 3 4); lra. Defined.

(** C5, as the code has it: [courant2D] checks nothing.  It fails exactly
    when a spacing is zero, by the [ZeroDivisionError] of the division
    itself; on every other pair of spacings, negative ones included, it
    returns the value of the formula. *)
Theorem courant2D_failure (dx dy : R) :
  (raises (courant2D dx dy) <-> dx = 0 \/ dy = 0)
  /\ (dx = 0 \/ dy = 0 -> courant2D dx dy = Raise ZeroDivisionError)
  /\ (dx <> 0 -> dy <> 0 ->
      courant2D dx dy = Ok (1 / sqrt (1 / dx ^ 2 + 1 / dy ^ 2))).
Proof.
  split; [| split; [apply courant2D_zero | apply courant2D_nonzero]].
  split.
  - intros Hr.
    destruct (Req_dec_T dx 0) as [Ex | Nx]; [now left |].
    destruct (Req_dec_T dy 0) as [Ey | Ny]; [now right |].
    rewrite courant2D_nonzero in Hr by assumption.
    now apply ok_not_raises in Hr.
  - intros H. rewrite courant2D_zero by assumption. apply raise_raises.
Qed.

Lemma courant2D_failure_witness :
  courant2D 0 1 = Raise ZeroDivisionError
  /\ courant2D 2 (-1) = Ok (1 / sqrt (1 / 2 ^ 2 + 1 / (-1) ^ 2)).
Proof.
  split.
  - apply (courant2D_failure 0 1). left. reflexivity.
  - apply (courant2D_failure 2 (-1)); lra.
Defined.

(** C5, as the specification states it, fails: with [dy = -1] nothing is
    raised. *)
Lemma courant2D_negative_spacing_returns :
  (1 <= 0 \/ -1 <= 0)
  /\ courant2D 1 (-1) = Ok (1 / sqrt 2)
  /\ ~ raises (courant2D 1 (-1)).
Proof.
  assert (E : courant2D 1 (-1) = Ok (1 / sqrt 2)).
  { rewrite courant2D_nonzero by lra. do 3 f_equal. field. }
  split; [right; lra |]. split; [exact E |].
  rewrite E. apply ok_not_raises.
Qed.

(** ** Run-cost formulas *)

Lemma time_estimation_nonzero (n_cells ppc push_time t_steps n_cpu : R) (hours : bool) :
  n_cpu <> 0 ->
  time_estimation n_cells ppc push_time t_steps n_cpu hours
  = Ok (if hours then n_cells * ppc * push_time * t_steps / n_cpu / 3600
        else n_cells * ppc * push_time * t_steps / n_cpu).
Proof.
  intros Hn. unfold time_estimation.
  rewrite truediv_nonzero by assumption. cbn [bind].
  destruct hours; [| reflexivity].
  apply truediv_nonzero. lra.
Qed.

Lemma time_estimation_zero (n_cells ppc push_time t_steps : R) (hours : bool) :
  time_estimation n_cells ppc push_time t_steps 0 hours = Raise ZeroDivisionError.
Proof. unfold time_estimation. rewrite truediv_zero. reflexivity. Qed.

(** C8: for positive run parameters the run time is
    [(n_cells * ppc * push_time * t_steps) / n_cpu] seconds, over 3600 with
    [hours]; the file size is [n_gridpoints * 4 / 1024^2], which is 4 for
    [1024 * 1024] grid points. *)
Theorem estimation_formulas (n_cells ppc push_time t_steps n_cpu n_gridpoints : R) :
  0 < n_cells -> 0 < ppc -> 0 < push_time -> 0 < t_steps -> 0 < n_cpu ->
  time_estimation n_cells ppc push_time t_steps n_cpu false
    = Ok (n_cells * ppc * push_time * t_steps / n_cpu)
  /\ time_estimation n_cells ppc push_time t_steps n_cpu true
    = Ok (n_cells * ppc * push_time * t_steps / n_cpu / 3600)
  /\ filesize_estimation n_gridpoints = Ok (n_gridpoints * 4 / 1024 ^ 2)
  /\ filesize_estimation (1024 * 1024) = Ok 4.
Proof.
  intros _ _ _ _ Hn.
  assert (H1024 : 1024 ^ 2 <> 0) by (simpl; lra).
  repeat split.
  - apply (time_estimation_nonzero _ _ _ _ _ false). lra.
  - apply (time_estimation_nonzero _ _ _ _ _ true). lra.
  - unfold filesize_estimation. now apply truediv_nonzero.
  - unfold filesize_estimation. rewrite truediv_nonzero by assumption.
    f_equal. field.
Qed.

Lemma estimation_formulas_witness :
  time_estimation 100 10 (1 / 1000) 1000 1 false = Ok 1000
  /\ time_estimation 100 10 (1 / 1000) 1000 1 true = Ok (1000 / 3600)
  /\ filesize_estimation 2048 = Ok (1 / 128).
Proof.
  destruct (estimation_formulas 100 10 (1 / 1000) 1000 1 2048) as (Hs & Hh & Hf & _);
    try lra.
  rewrite Hs, Hh, Hf.
  repeat split; f_equal; field.
Defined.

(** C7, as the code has it: [time_estimation] checks nothing.  It fails
    exactly when [n_cpu] is zero, by the [ZeroDivisionError] of the
    division itself; for every other [n_cpu], negative ones included, it
    returns the quotient. *)
Theorem time_estimation_failure (n_cells ppc push_time t_steps n_cpu : R) (hours : bool) :
  (raises (time_estimation n_cells ppc push_time t_steps n_cpu hours) <-> n_cpu = 0)
  /\ (n_cpu = 0 ->
      time_estimation n_cells ppc push_time t_steps n_cpu hours = Raise ZeroDivisionError)
  /\ (n_cpu <> 0 ->
      time_estimation n_cells ppc push_time t_steps n_cpu false
      = Ok (n_cells * ppc * push_time * t_steps / n_cpu)).
Proof.
  split; [| split].
  - split.
    + intros Hr. destruct (Req_dec_T n_cpu 0) as [E | N]; [exact E |].
      rewrite time_estimation_nonzero in Hr by assumption.
      now apply ok_not_raises in Hr.
    + intros ->. rewrite time_estimation_zero. apply raise_raises.
  - intros ->. apply time_estimation_zero.
  - intros N. now rewrite time_estimation_nonzero.
Qed.

Lemma time_estimation_failure_witness :
  time_estimation 1000000 100 (1 / 100000000) 1000 0 false = Raise ZeroDivisionError
  /\ time_estimation 1000000 100 (1 / 100000000) 1000 (-4) false
     = Ok (1000000 * 100 * (1 / 100000000) * 1000 / (-4)).
Proof.
  split.
  - apply (time_estimation_failure 1000000 100 (1 / 100000000) 1000 0 false). reflexivity.
  - apply (time_estimation_failure 1000000 100 (1 / 100000000) 1000 (-4) false). lra.
Defined.

(** C7, as the specification states it, fails: with [n_cpu = -4] nothing
    is raised, and the estimate is negative. *)
Lemma time_estimation_negative_cpu_returns :
  ~ (0 < -4)
  /\ time_estimation 1000000 100 (1 / 100000000) 1000 (-4) false = Ok (-250)
  /\ ~ raises (time_estimation 1000000 100 (1 / 100000000) 1000 (-4) false).
Proof.
  assert (E : time_estimation 1000000 100 (1 / 100000000) 1000 (-4) false = Ok (-250)).
  { rewrite time_estimation_nonzero by lra. f_equal. field. }
  split; [lra |]. split; [exact E |].
  rewrite E. apply ok_not_raises.
Qed.

(** ** Rank checks *)

Lemma transverse_average_rank2 (a : ndarray) :
  ndim a = 2%nat -> transverse_average a = Ok (Numpy.mean_axis1 a).
Proof. intros H. unfold transverse_average. rewrite H. reflexivity. Qed.

Lemma integrate_rank1 (a : ndarray) (dx : R) :
  ndim a = 1%nat ->
  integrate a dx
  = (int <- Scipy.cumulative_simpson (rev (flat a)) dx (Some 0) ;;
     Ok (Numpy.flip (Numpy.negative (array1 int)))).
Proof. intros H. unfold integrate. rewrite H. reflexivity. Qed.

(** C4: an input whose rank is not 2 makes [transverse_average] raise, an
    input whose rank is not 1 makes [integrate] raise; the check is the
    first thing either does, and the outcome carries no array. *)
Theorem rank_mismatch_raises (a : ndarray) (dx : R) :
  (ndim a <> 2%nat -> transverse_average a = Raise (ValueError MustBe2D))
  /\ (ndim a <> 1%nat -> integrate a dx = Raise (ValueError (MustBe1D (shape a)))).
Proof.
  split; intros H.
  - unfold transverse_average.
    destruct (Nat.eqb_spec (ndim a) 2) as [E | _]; [contradiction | reflexivity].
  - unfold integrate.
    destruct (Nat.eqb_spec (ndim a) 1) as [E | _]; [contradiction | reflexivity].
Qed.

Lemma rank_mismatch_raises_witness :
  transverse_average (mk_ndarray [3%nat] [1; 2; 3]) = Raise (ValueError MustBe2D)
  /\ transverse_average (mk_ndarray [1; 1; 2]%nat [1; 2]) = Raise (ValueError MustBe2D)
  /\ integrate (mk_ndarray [1; 2]%nat [1; 2]) 1
     = Raise (ValueError (MustBe1D [1; 2]%nat)).
Proof.
  split; [| split].
  - apply (rank_mismatch_raises (mk_ndarray [3%nat] [1; 2; 3]) 1). unfold ndim; simpl; lia.
  - apply (rank_mismatch_raises (mk_ndarray [1; 1; 2]%nat [1; 2]) 1). unfold ndim; simpl; lia.
  - apply (rank_mismatch_raises (mk_ndarray [1; 2]%nat [1; 2]) 1). unfold ndim; simpl; lia.
Defined.

(** ** The transverse average *)

Lemma rows_of_length (r c : nat) (buf : list R) : length (Numpy.rows_of r c buf) = r.
Proof. revert buf. induction r as [| r IH]; intros buf; simpl; [| rewrite IH]; reflexivity. Qed.

Lemma rows_of_nth (r c : nat) (buf : list R) (i : nat) :
  (i < r)%nat ->
  nth i (Numpy.rows_of r c buf) [] = firstn c (skipn (i * c) buf).
Proof.
  revert buf i. induction r as [| r IH]; intros buf i Hi; [lia |].
  destruct i as [| i]; simpl.
  - reflexivity.
  - rewrite IH by lia. rewrite skipn_skipn. do 2 f_equal. lia.
Qed.

Lemma fold_left_Rplus_acc (l : list R) (acc : R) :
  fold_left Rplus l acc = acc + fold_left Rplus l 0.
Proof.
  revert acc. induction l as [| x l IH]; intros acc; simpl.
  - lra.
  - rewrite (IH (acc + x)), (IH (0 + x)). lra.
Qed.

Lemma add_reduce_snoc (l : list R) (x : R) :
  Numpy.add_reduce (l ++ [x]) = Numpy.add_reduce l + x.
Proof. unfold Numpy.add_reduce. rewrite fold_left_app. reflexivity. Qed.

Lemma firstn_succ_snoc (l : list R) (k : nat) :
  (k < length l)%nat -> firstn (S k) l = firstn k l ++ [nth k l 0].
Proof.
  revert k. induction l as [| x l IH]; intros k Hk; simpl in Hk; [lia |].
  destruct k as [| k]; simpl; [reflexivity |].
  rewrite <- IH by lia. reflexivity.
Qed.

Lemma nth_skipn_R (l : list R) (s k : nat) : nth k (skipn s l) 0 = nth (s + k) l 0.
Proof.
  revert l. induction s as [| s IH]; intros l; simpl; [reflexivity |].
  destruct l as [| x l]; [now destruct k | apply IH].
Qed.

(** The sum numpy takes over row [i] is the sum of the row's items. *)
Lemma add_reduce_row (a : ndarray) (c i k : nat) :
  (i * c + k <= length (flat a))%nat ->
  Numpy.add_reduce (firstn k (skipn (i * c) (flat a))) = Spec.row_sum a c i k.
Proof.
  induction k as [| k IH]; intros Hk.
  - reflexivity.
  - cbn [Spec.row_sum].
    rewrite firstn_succ_snoc by (rewrite length_skipn; lia).
    rewrite add_reduce_snoc, IH by lia.
    unfold item2. now rewrite nth_skipn_R.
Qed.

Lemma nth_map_rows (f : list R -> R) (rows : list (list R)) (i : nat) :
  (i < length rows)%nat -> nth i (map f rows) 0 = f (nth i rows []).
Proof.
  revert i. induction rows as [| row rows IH]; intros i Hi; simpl in Hi; [lia |].
  destruct i as [| i]; simpl; [reflexivity | apply IH; lia].
Qed.

Lemma mean_axis1_rank2 (a : ndarray) (r c : nat) :
  shape a = [r; c] ->
  Numpy.mean_axis1 a
  = mk_ndarray [r] (map (fun row => Numpy.add_reduce row / INR c)
                        (Numpy.rows_of r c (flat a))).
Proof. intros H. unfold Numpy.mean_axis1. rewrite H. reflexivity. Qed.

(** C3: on an array of shape (R, C) the result has shape (R,), and its
    [i]-th element is the arithmetic mean of row [i] (for rows that have
    elements); [[1,2,3],[4,5,6]] gives [2, 5]. *)
Theorem transverse_average_row_means (a : ndarray) (r c : nat) :
  well_formed a -> shape a = [r; c] ->
  exists p,
    transverse_average a = Ok p
    /\ shape p = [r]
    /\ length (flat p) = r
    /\ ((0 < c)%nat -> forall i, (i < r)%nat -> nth i (flat p) 0 = Spec.row_mean a c i)
    /\ transverse_average (array2 3 [[1; 2; 3]; [4; 5; 6]]) = Ok (array1 [2; 5]).
Proof.
  intros Hwf Hsh.
  exists (Numpy.mean_axis1 a).
  assert (Hlen : length (flat a) = (r * c)%nat).
  { unfold well_formed in Hwf. rewrite Hsh in Hwf. simpl in Hwf. lia. }
  split; [apply transverse_average_rank2; unfold ndim; now rewrite Hsh |].
  rewrite (mean_axis1_rank2 a r c Hsh). cbn [shape flat].
  split; [reflexivity |].
  split; [now rewrite length_map, rows_of_length |].
  split.
  - intros _ i Hi.
    rewrite nth_map_rows by now rewrite rows_of_length.
    rewrite rows_of_nth by assumption.
    unfold Spec.row_mean. f_equal.
    apply add_reduce_row. nia.
  - unfold transverse_average, array2, array1, Numpy.mean_axis1, Numpy.add_reduce.
    simpl. do 2 f_equal. repeat (f_equal; try lra).
Qed.

Lemma transverse_average_row_means_witness :
  exists p,
    transverse_average (mk_ndarray [2; 2]%nat [1; 3; 5; 9]) = Ok p
    /\ shape p = [2%nat]
    /\ nth 1 (flat p) 0 = Spec.row_mean (mk_ndarray [2; 2]%nat [1; 3; 5; 9]) 2 1.
Proof.
  destruct (transverse_average_row_means (mk_ndarray [2; 2]%nat [1; 3; 5; 9]) 2 2)
    as (p & Hp & Hs & _ & Hm & _); [reflexivity | reflexivity |].
  exists p. split; [exact Hp |]. split; [exact Hs |].
  apply Hm; lia.
Defined.

(** ** Slices and strided assignment *)

Section Slices.

Import Numpy.

Lemma cumsum_from_length (l : list R) (acc : R) :
  length (cumsum_from acc l) = length l.
Proof.
  revert acc. induction l as [| x l IH]; intros acc; simpl; [| rewrite IH]; reflexivity.
Qed.

Lemma cumsum_length (l : list R) : length (cumsum l) = length l.
Proof. apply cumsum_from_length. Qed.

Lemma drop_last_length (k : nat) (l : list R) :
  length (drop_last k l) = (length l - k)%nat.
Proof. unfold drop_last. rewrite length_firstn. lia. Qed.

Lemma drop_last_nth (k : nat) (l : list R) (i : nat) (d : R) :
  (i < length l - k)%nat -> nth i (drop_last k l) d = nth i l d.
Proof.
  intros Hi. unfold drop_last. rewrite nth_firstn.
  destruct (Nat.ltb_spec i (length l - k)); [reflexivity | lia].
Qed.

Lemma repeat_nth_lt (x : R) (m i : nat) (d : R) :
  (i < m)%nat -> nth i (repeat x m) d = x.
Proof.
  intros Hi. rewrite (nth_indep _ d x) by now rewrite repeat_length.
  apply nth_repeat.
Qed.

Lemma last_as_nth (l : list R) (d : R) : last l d = nth (length l - 1) l d.
Proof.
  induction l as [| x l IH]; [reflexivity |].
  destruct l as [| y l]; [reflexivity |].
  change (last (x :: y :: l) d) with (last (y :: l) d).
  rewrite IH. simpl. now rewrite Nat.sub_0_r.
Qed.

Lemma set_stride2_length (a v : list R) : length (set_stride2 a v) = length a.
Proof.
  remember (length a) as n eqn:Hn.
  revert a v Hn. induction n as [n IH] using lt_wf_ind. intros a v Hn.
  destruct a as [| x [| y a]]; destruct v as [| w v]; try (simpl in *; lia).
  simpl. simpl in Hn. rewrite (IH (length a)); [lia | lia | reflexivity].
Qed.

(** Writing every other element of [v] at every other place of [a] leaves
    the elements of [v] at the even places and those of [a] at the odd
    ones. *)
Lemma set_stride2_stride2_nth (a v : list R) (k : nat) (d : R) :
  length a = length v ->
  nth k (set_stride2 a (stride2 v)) d = if Nat.even k then nth k v d else nth k a d.
Proof.
  remember (length a) as n eqn:Hn.
  revert a v k Hn. induction n as [n IH] using lt_wf_ind. intros a v k Hn Hv.
  destruct a as [| x1 [| x2 a]]; destruct v as [| y1 [| y2 v]];
    simpl in Hn, Hv; try lia.
  - simpl. now destruct (Nat.even k), k.
  - destruct k as [| [| k]]; simpl; try reflexivity. now destruct (Nat.even k), k.
  - change (set_stride2 (x1 :: x2 :: a) (stride2 (y1 :: y2 :: v)))
      with (y1 :: x2 :: set_stride2 a (stride2 v)).
    destruct k as [| [| k]]; try reflexivity.
    change (Nat.even (S (S k))) with (Nat.even k). cbn [nth].
    apply (IH (length a)); lia.
Qed.

Lemma set_slice2_length (s e : nat) (a v : list R) :
  (s <= e <= length a)%nat -> length (set_slice2 s e a v) = length a.
Proof.
  intros H. unfold set_slice2.
  rewrite !length_app, set_stride2_length, !length_firstn, !length_skipn. lia.
Qed.

Lemma set_slice2_nth (s e : nat) (a v : list R) (k : nat) (d : R) :
  (s <= e <= length a)%nat ->
  nth k (set_slice2 s e a v) d
  = if ((s <=? k) && (k <? e))%nat
    then nth (k - s) (set_stride2 (firstn (e - s) (skipn s a)) v) d
    else nth k a d.
Proof.
  intros H. unfold set_slice2.
  assert (Ls : length (firstn s a) = s) by (rewrite length_firstn; lia).
  assert (Lm : length (set_stride2 (firstn (e - s) (skipn s a)) v) = (e - s)%nat)
    by (rewrite set_stride2_length, length_firstn, length_skipn; lia).
  destruct (Nat.leb_spec s k) as [Hsk | Hsk]; cbn [andb].
  - rewrite app_nth2 by lia. rewrite Ls.
    destruct (Nat.ltb_spec k e) as [Hke | Hke].
    + rewrite app_nth1 by lia. reflexivity.
    + rewrite app_nth2 by lia. rewrite Lm, nth_skipn. f_equal. lia.
  - rewrite app_nth1 by lia. rewrite nth_firstn.
    destruct (Nat.ltb_spec k s); [reflexivity | lia].
Qed.

Lemma set_last_length (a : list R) (x : R) :
  a <> [] -> length (set_last a x) = length a.
Proof.
  intros Ha. unfold set_last. rewrite length_app, drop_last_length. simpl.
  destruct a; [contradiction | simpl; lia].
Qed.

Lemma set_last_nth (a : list R) (x : R) (k : nat) (d : R) :
  (k < length a)%nat ->
  nth k (set_last a x) d = if (k <? length a - 1)%nat then nth k a d else x.
Proof.
  intros Hk. unfold set_last.
  destruct (Nat.ltb_spec k (length a - 1)) as [Hlt | Hge].
  - rewrite app_nth1 by (rewrite drop_last_length; lia).
    now apply drop_last_nth.
  - rewrite app_nth2 by (rewrite drop_last_length; lia).
    rewrite drop_last_length. replace (k - (length a - 1))%nat with 0%nat by lia.
    reflexivity.
Qed.

End Slices.

(** ** The sub-interval integrals of [cumulative_simpson] *)

Section SimpsonPanels.

Import Numpy Scipy.

Lemma simpson_h1_length (d f1 f2 f3 : list R) (m : nat) :
  length d = m -> length f1 = m -> length f2 = m -> length f3 = m ->
  length (simpson_h1 d f1 f2 f3) = m.
Proof.
  revert f1 f2 f3 m. induction d as [| di d IH]; intros f1 f2 f3 m Hd H1 H2 H3.
  - now subst m.
  - destruct f1 as [| a f1], f2 as [| b f2], f3 as [| c f3], m as [| m];
      simpl in *; try discriminate.
    f_equal. apply IH; congruence.
Qed.

Lemma simpson_h1_nth (d f1 f2 f3 : list R) (m j : nat) :
  length d = m -> length f1 = m -> length f2 = m -> length f3 = m ->
  (j < m)%nat ->
  nth j (simpson_h1 d f1 f2 f3) 0
  = nth j d 0 / 3 * (5 * nth j f1 0 / 4 + 2 * nth j f2 0 - nth j f3 0 / 4).
Proof.
  revert f1 f2 f3 m j. induction d as [| di d IH]; intros f1 f2 f3 m j Hd H1 H2 H3 Hj.
  - subst m. simpl in Hj. lia.
  - destruct f1 as [| a f1], f2 as [| b f2], f3 as [| c f3], m as [| m];
      simpl in Hd, H1, H2, H3; try discriminate; try lia.
    destruct j as [| j]; [reflexivity |].
    cbn [simpson_h1 nth]. apply (IH f1 f2 f3 m); try congruence. lia.
Qed.

Variable dx : R.
Variable y : list R.
Variable n : nat.
Hypothesis y_length : length y = n.
Hypothesis three_points : (3 <= n)%nat.

Lemma equal_intervals_length (w : list R) :
  length w = n ->
  length (cumulative_simpson_equal_intervals w (repeat dx (n - 1))) = (n - 2)%nat.
Proof.
  intros Hw. unfold cumulative_simpson_equal_intervals.
  apply simpson_h1_length.
  - rewrite drop_last_length, repeat_length. lia.
  - rewrite drop_last_length. lia.
  - rewrite drop_last_length, length_skipn. lia.
  - rewrite length_skipn. lia.
Qed.

(** Entry [j] of the first pass: the left interval of the parabola through
    samples [j], [j+1], [j+2]. *)
Lemma equal_intervals_nth (w : list R) (j : nat) :
  length w = n -> (j < n - 2)%nat ->
  nth j (cumulative_simpson_equal_intervals w (repeat dx (n - 1))) 0
  = Spec.quadratic_left dx (nth j w 0) (nth (j + 1) w 0) (nth (j + 2) w 0).
Proof.
  intros Hw Hj. unfold cumulative_simpson_equal_intervals.
  rewrite (simpson_h1_nth _ _ _ _ (n - 2)); try assumption.
  - rewrite drop_last_nth by (rewrite repeat_length; lia).
    rewrite repeat_nth_lt by lia.
    rewrite drop_last_nth by lia.
    rewrite drop_last_nth by (rewrite length_skipn; lia).
    rewrite !nth_skipn.
    replace (1 + j)%nat with (j + 1)%nat by lia.
    replace (2 + j)%nat with (j + 2)%nat by lia.
    unfold Spec.quadratic_left. field.
  - rewrite drop_last_length, repeat_length. lia.
  - rewrite drop_last_length. lia.
  - rewrite drop_last_length, length_skipn. lia.
  - rewrite length_skipn. lia.
Qed.

(** Entry [k] of the second pass, run on the reversed samples and read
    backwards: the right interval of the parabola through samples [k],
    [k+1], [k+2]. *)
Lemma equal_intervals_rev_nth (k : nat) :
  (k < n - 2)%nat ->
  nth k (rev (cumulative_simpson_equal_intervals (rev y) (rev (repeat dx (n - 1))))) 0
  = Spec.quadratic_right dx (nth k y 0) (nth (k + 1) y 0) (nth (k + 2) y 0).
Proof.
  intros Hk. rewrite rev_repeat.
  assert (Hr : length (rev y) = n) by now rewrite length_rev.
  rewrite rev_nth by (rewrite equal_intervals_length; [lia | exact Hr]).
  rewrite equal_intervals_length by exact Hr.
  rewrite equal_intervals_nth by (try exact Hr; lia).
  rewrite !rev_nth by lia. rewrite y_length.
  unfold Spec.quadratic_left, Spec.quadratic_right.
  replace (n - S (n - 2 - S k))%nat with (k + 2)%nat by lia.
  replace (n - S (n - 2 - S k + 1))%nat with (k + 1)%nat by lia.
  replace (n - S (n - 2 - S k + 2))%nat with k by lia.
  reflexivity.
Qed.



Lemma nth_map_seq (f : nat -> R) (m j : nat) :
  (j < m)%nat -> nth j (map f (seq 0 m)) 0 = f j.
Proof.
  intros Hj.
  rewrite (nth_indep _ 0 (f 0%nat)) by now rewrite length_map, length_seq.
  rewrite (map_nth f). now rewrite seq_nth.
Qed.

Lemma even_pred_flip (j : nat) : Nat.even (S j) = negb (Nat.even j).
Proof. rewrite Nat.even_succ. now rewrite <- Nat.negb_even. Qed.

(** The buffer [sub_integrals] after its three assignments holds, at
    place [j], the integral over the interval from sample [j] to sample
    [j+1]. *)
Lemma sub_integrals_panels :
  cumulatively_sum_simpson_integrals y (repeat dx (n - 1)) cumulative_simpson_equal_intervals
  = cumsum (map (Spec.panel (fun i => nth i y 0) n dx) (seq 0 (n - 1))).
Proof.
  unfold cumulatively_sum_simpson_integrals.
  set (h1 := cumulative_simpson_equal_intervals y (repeat dx (n - 1))).
  set (h2 := rev (cumulative_simpson_equal_intervals (rev y) (rev (repeat dx (n - 1))))).
  assert (L1 : length h1 = (n - 2)%nat) by (apply equal_intervals_length; exact y_length).
  assert (L2 : length h2 = (n - 2)%nat).
  { unfold h2. rewrite length_rev, rev_repeat. apply equal_intervals_length.
    now rewrite length_rev. }
  assert (N1 : forall j, (j < n - 2)%nat ->
             nth j h1 0 = Spec.quadratic_left dx (nth j y 0) (nth (j + 1) y 0) (nth (j + 2) y 0))
    by (intros j Hj; now apply equal_intervals_nth).
  assert (N2 : forall j, (j < n - 2)%nat ->
             nth j h2 0 = Spec.quadratic_right dx (nth j y 0) (nth (j + 1) y 0) (nth (j + 2) y 0))
    by (intros j Hj; now apply equal_intervals_rev_nth).
  clearbody h1 h2.
  rewrite L1. replace (S (n - 2) - 1)%nat with (n - 2)%nat by lia.
  set (a1 := set_slice2 0 (n - 2) (empty (S (n - 2))) (stride2 h1)).
  set (a2 := set_slice2 1 (S (n - 2)) a1 (stride2 h2)).
  assert (Le : length (empty (S (n - 2))) = S (n - 2)) by apply repeat_length.
  assert (La1 : length a1 = S (n - 2)).
  { unfold a1. rewrite set_slice2_length; lia. }
  assert (La2 : length a2 = S (n - 2)).
  { unfold a2. rewrite set_slice2_length; lia. }
  assert (Ha1 : forall j, (j < n - 2)%nat -> Nat.even j = true -> nth j a1 0 = nth j h1 0).
  { intros j Hj Ev. unfold a1. rewrite set_slice2_nth by lia.
    destruct (Nat.ltb_spec j (n - 2)); [| lia]. cbn [Nat.leb andb].
    rewrite set_stride2_stride2_nth
      by (rewrite length_firstn, length_skipn; lia).
    rewrite Nat.sub_0_r, Ev. reflexivity. }
  assert (Ha2 : forall j, (j < n - 2)%nat ->
                nth j a2 0 = if Nat.even j then nth j h1 0 else nth (j - 1) h2 0).
  { intros j Hj. unfold a2. rewrite set_slice2_nth by lia.
    destruct j as [| j].
    - cbn [Nat.leb andb Nat.even]. now apply Ha1.
    - destruct (Nat.ltb_spec (S j) (S (n - 2))); [| lia]. cbn [Nat.leb andb].
      rewrite set_stride2_stride2_nth
        by (rewrite length_firstn, length_skipn; lia).
      replace (S j - 1)%nat with j by lia.
      rewrite even_pred_flip.
      destruct (Nat.even j) eqn:Ev; cbn [negb]; [reflexivity |].
      rewrite nth_firstn, nth_skipn.
      destruct (Nat.ltb_spec j (S (n - 2) - 1)); [| lia].
      apply Ha1; [lia |]. rewrite even_pred_flip, Ev. reflexivity. }
  clearbody a1 a2.
  f_equal. apply (nth_ext _ _ 0 0).
  - rewrite set_last_length, La2, length_map, length_seq; [lia |].
    intros E. rewrite E in La2. discriminate.
  - rewrite set_last_length by (intros E; rewrite E in La2; discriminate).
    rewrite La2. intros j Hj.
    rewrite set_last_nth by lia. rewrite La2.
    rewrite nth_map_seq by lia.
    unfold Spec.panel.
    destruct (Nat.ltb_spec n 3); [lia |].
    destruct (Nat.ltb_spec j (S (n - 2) - 1)) as [Hlt | Hge].
    + rewrite Ha2 by lia.
      destruct (Nat.ltb_spec (j + 2) n); [| lia].
      destruct (Nat.even j) eqn:Ev; cbn [andb].
      * apply N1. lia.
      * destruct j as [| j]; [discriminate Ev |].
        rewrite N2 by lia.
        replace (S j - 1)%nat with j by lia.
        replace (j + 1)%nat with (S j) by lia.
        replace (j + 2)%nat with (S j + 1)%nat by lia.
        reflexivity.
    + assert (j = (n - 2)%nat) by lia. subst j.
      destruct (Nat.ltb_spec (n - 2 + 2) n); [lia |].
      rewrite andb_false_r.
      rewrite last_as_nth, L2, N2 by lia.
      replace (n - 2 - 1 + 1)%nat with (n - 2)%nat by lia.
      replace (n - 2 - 1 + 2)%nat with (n - 2 + 1)%nat by lia.
      reflexivity.
Qed.

End SimpsonPanels.

(** ** The cumulative integral *)

Section Cumulative.

Import Numpy.

Variable z : nat -> R.
Variable n : nat.
Variable dx : R.

(** Summing the interval integrals from the left gives the accumulator of
    the specification. *)
Lemma cumsum_from_panels (m s k : nat) :
  (k < m)%nat ->
  nth k (cumsum_from (Spec.cumulative z n dx s) (map (Spec.panel z n dx) (seq s m))) 0
  = Spec.cumulative z n dx (s + S k).
Proof.
  revert s k. induction m as [| m IH]; intros s k Hk; [lia |].
  cbn [seq map cumsum_from].
  change (Spec.cumulative z n dx s + Spec.panel z n dx s)
    with (Spec.cumulative z n dx (S s)).
  destruct k as [| k]; cbn [nth].
  - f_equal. lia.
  - rewrite IH by lia. f_equal. lia.
Qed.

Lemma cumsum_panels_nth (m k : nat) :
  (k < m)%nat ->
  nth k (cumsum (map (Spec.panel z n dx) (seq 0 m))) 0 = Spec.cumulative z n dx (S k).
Proof.
  intros Hk. unfold cumsum.
  change 0 with (Spec.cumulative z n dx 0) at 1.
  now rewrite cumsum_from_panels.
Qed.

(** Over whole pairs of intervals the accumulator is the classical
    composite Simpson sum. *)
Lemma cumulative_even_composite (m : nat) :
  (3 <= n)%nat -> (2 * m < n)%nat ->
  Spec.cumulative z n dx (2 * m) = Spec.composite_simpson z dx m.
Proof.
  intros Hn. induction m as [| m IH]; intros Hm; [reflexivity |].
  replace (2 * S m)%nat with (S (S (2 * m))) by lia.
  cbn [Spec.cumulative Spec.composite_simpson].
  rewrite IH by lia. unfold Spec.panel.
  destruct (Nat.ltb_spec n 3); [lia |].
  destruct (Nat.ltb_spec (2 * m + 2) n); [| lia].
  assert (E0 : Nat.even (2 * m) = true)
    by (apply Nat.even_spec; now exists m).
  assert (E1 : Nat.even (S (2 * m)) = false)
    by (rewrite even_pred_flip, E0; reflexivity).
  rewrite E0, E1. cbn [andb].
  replace (S (2 * m) - 1)%nat with (2 * m)%nat by lia.
  replace (S (2 * m) + 1)%nat with (2 * m + 2)%nat by lia.
  replace (S (2 * m)) with (2 * m + 1)%nat by lia.
  unfold Spec.quadratic_left, Spec.quadratic_right. field.
Qed.

End Cumulative.

(** The two interval formulas are exact on parabolas: they are the
    increments of the antiderivative of [a x^2 + b x + c] over the left
    and over the right interval of three samples [h] apart. *)
Lemma quadratic_panels_exact (a b c x h : R) :
  let p := fun t => a * t ^ 2 + b * t + c in
  let P := fun t => a * t ^ 3 / 3 + b * t ^ 2 / 2 + c * t in
  Spec.quadratic_left h (p x) (p (x + h)) (p (x + 2 * h)) = P (x + h) - P x
  /\ Spec.quadratic_right h (p x) (p (x + h)) (p (x + 2 * h)) = P (x + 2 * h) - P (x + h).
Proof.
  cbv zeta. unfold Spec.quadratic_left, Spec.quadratic_right. split; field.
Qed.

Lemma spec_cumulative_simpson_length (y : list R) (dx : R) :
  length (Spec.cumulative_simpson y dx) = length y.
Proof. unfold Spec.cumulative_simpson. now rewrite length_map, length_seq. Qed.

(** [scipy.integrate.cumulative_simpson(y, dx=dx, initial=0)] on at least
    one sample is the cumulative composite-Simpson integral that starts
    at 0. *)
Lemma cumulative_simpson_spec (y : list R) (dx : R) :
  y <> [] ->
  Scipy.cumulative_simpson y dx (Some 0) = Ok (Spec.cumulative_simpson y dx).
Proof.
  intros Hy. unfold Scipy.cumulative_simpson.
  destruct (Nat.ltb_spec (length y) 3) as [Hlt | Hge].
  - destruct y as [| a [| b [| c t]]]; [contradiction | | | simpl in Hlt; lia].
    + cbn. reflexivity.
    + cbn. unfold Spec.linear_panel. do 3 f_equal. field.
  - rewrite (sub_integrals_panels dx y (length y) eq_refl Hge).
    cbn [bind]. f_equal.
    apply (nth_ext _ _ 0 0).
    + rewrite spec_cumulative_simpson_length.
      cbn [app length]. rewrite length_map, cumsum_length, length_map, length_seq. lia.
    + cbn [app length].
      rewrite length_map, cumsum_length, length_map, length_seq.
      intros k Hk. unfold Spec.cumulative_simpson.
      rewrite nth_map_seq by lia.
      destruct k as [| k]; [reflexivity |].
      cbn [nth].
      rewrite (nth_indep _ 0 ((fun r => r + 0) 0))
        by (rewrite length_map, cumsum_length, length_map, length_seq; lia).
      rewrite (map_nth (fun r => r + 0)).
      rewrite cumsum_panels_nth by lia.
      apply Rplus_0_r.
Qed.

(** ** [integrate] *)

Lemma flip_negative_array1 (int : list R) :
  Numpy.flip (Numpy.negative (array1 int)) = array1 (rev (map Ropp int)).
Proof.
  unfold Numpy.flip, Numpy.negative, array1. cbn [shape flat].
  now rewrite length_rev, length_map.
Qed.

Lemma rev_nonempty (l : list R) : l <> [] -> rev l <> [].
Proof.
  intros Hl E. apply Hl. rewrite <- (rev_involutive l), E. reflexivity.
Qed.

Lemma nonempty_of_length (l : list R) : (1 <= length l)%nat -> l <> [].
Proof. intros H E. rewrite E in H. simpl in H. lia. Qed.

Lemma spec_integrate_length (profile : list R) (dx : R) :
  length (Spec.integrate profile dx) = length profile.
Proof.
  unfold Spec.integrate.
  now rewrite length_rev, length_map, spec_cumulative_simpson_length, length_rev.
Qed.

(** Place [i] of the integrated profile holds minus the accumulator of the
    reversed profile at the mirrored place. *)
Lemma spec_integrate_nth (profile : list R) (dx : R) (i : nat) :
  (i < length profile)%nat ->
  nth i (Spec.integrate profile dx) 0
  = - Spec.cumulative (fun k => nth k (rev profile) 0) (length profile) dx
        (length profile - S i).
Proof.
  intros Hi. unfold Spec.integrate.
  rewrite rev_nth
    by (rewrite length_map, spec_cumulative_simpson_length, length_rev; lia).
  rewrite length_map, spec_cumulative_simpson_length, length_rev.
  rewrite (nth_indep _ 0 (- 0))
    by (rewrite length_map, spec_cumulative_simpson_length, length_rev; lia).
  rewrite (map_nth Ropp). f_equal.
  unfold Spec.cumulative_simpson. rewrite length_rev.
  apply nth_map_seq. lia.
Qed.

(** The value [initial = 0] comes first in what [cumulative_simpson]
    returns, followed by one value per interval. *)
Lemma cumulative_simpson_starts_at_zero (y : list R) (dx : R) :
  y <> [] ->
  exists rest,
    Scipy.cumulative_simpson y dx (Some 0) = Ok (0 :: rest)
    /\ length rest = (length y - 1)%nat.
Proof.
  intros Hy. unfold Scipy.cumulative_simpson.
  destruct (Nat.ltb_spec (length y) 3) as [Hlt | Hge].
  - destruct y as [| a [| b [| c t]]]; [contradiction | | | simpl in Hlt; lia].
    + exists []. split; reflexivity.
    + eexists. split; [cbn; reflexivity | reflexivity].
  - cbn [bind app]. eexists. split; [reflexivity |].
    rewrite (sub_integrals_panels dx y (length y) eq_refl Hge).
    now rewrite length_map, cumsum_length, length_map, length_seq.
Qed.

(** C1: on a 1-D profile with at least one sample, [integrate] returns
    the profile reversed, integrated cumulatively from zero by the
    composite Simpson rule with step [dx], negated, and reversed back. *)
Theorem integrate_reverse_simpson_negate_reverse (a : ndarray) (dx : R) :
  ndim a = 1%nat -> flat a <> [] ->
  integrate a dx = Ok (array1 (Spec.integrate (flat a) dx))
  /\ length (Spec.integrate (flat a) dx) = length (flat a).
Proof.
  intros Hrank Hne. split; [| apply spec_integrate_length].
  rewrite integrate_rank1 by assumption.
  rewrite cumulative_simpson_spec by now apply rev_nonempty.
  cbn [bind]. rewrite flip_negative_array1. reflexivity.
Qed.

Lemma integrate_reverse_simpson_negate_reverse_witness :
  integrate (array1 [1; 4; 9; 16]) 1
  = Ok (array1 (Spec.integrate [1; 4; 9; 16] 1)).
Proof.
  apply (integrate_reverse_simpson_negate_reverse (array1 [1; 4; 9; 16]) 1).
  - reflexivity.
  - discriminate.
Defined.

(** C9: a profile of exactly one sample integrates to the one-element
    array [0], whatever the spacing. *)
Theorem integrate_single_sample (a : ndarray) (dx : R) :
  ndim a = 1%nat -> length (flat a) = 1%nat ->
  integrate a dx = Ok (array1 [0]).
Proof.
  intros Hrank Hlen.
  rewrite integrate_rank1 by assumption.
  destruct (flat a) as [| x [| x' t]]; try discriminate Hlen.
  cbn. rewrite flip_negative_array1. cbn [map rev app].
  now rewrite Ropp_0.
Qed.

Lemma integrate_single_sample_witness :
  integrate (array1 [7]) (1 / 2) = Ok (array1 [0]).
Proof.
  apply (integrate_single_sample (array1 [7]) (1 / 2)); reflexivity.
Defined.

(** C10: on a profile of at least two samples the result has as many
    elements as the input, and its last element is 0. *)
Theorem integrate_same_length_last_zero (a : ndarray) (dx : R) :
  ndim a = 1%nat -> (2 <= length (flat a))%nat ->
  exists v,
    integrate a dx = Ok v
    /\ shape v = [length (flat a)]
    /\ length (flat v) = length (flat a)
    /\ nth (length (flat a) - 1) (flat v) 1 = 0
    /\ last (flat v) 1 = 0.
Proof.
  intros Hrank Hlen.
  rewrite integrate_rank1 by assumption.
  destruct (cumulative_simpson_starts_at_zero (rev (flat a)) dx) as (rest & E & Hrest).
  { apply rev_nonempty, nonempty_of_length. lia. }
  rewrite length_rev in Hrest.
  rewrite E. cbn [bind]. rewrite flip_negative_array1.
  eexists. split; [reflexivity |].
  unfold array1. cbn [shape flat map rev].
  assert (L : length (rev (map Ropp rest)) = (length (flat a) - 1)%nat)
    by now rewrite length_rev, length_map.
  rewrite length_app, L. cbn [length].
  split; [f_equal; lia |]. split; [lia |]. split.
  - rewrite app_nth2 by lia. rewrite L, Nat.sub_diag. cbn [nth]. apply Ropp_0.
  - rewrite last_last. apply Ropp_0.
Qed.

Lemma integrate_same_length_last_zero_witness :
  exists v,
    integrate (array1 [3; 1; 4; 1; 5]) 2 = Ok v
    /\ length (flat v) = 5%nat
    /\ last (flat v) 1 = 0.
Proof.
  destruct (integrate_same_length_last_zero (array1 [3; 1; 4; 1; 5]) 2)
    as (v & Hv & _ & Hl & _ & Hz); [reflexivity | simpl; lia |].
  exists v. split; [exact Hv |]. split; [exact Hl | exact Hz].
Defined.

(** ** The pipeline *)

(** C2: [longitudinal_profile] is [transverse_average] followed by
    [integrate], failures of either stage included; on a 2-D field it is
    [integrate] applied to the transverse average. *)
Theorem longitudinal_profile_composition (field : ndarray) (dx : R) :
  longitudinal_profile field dx
  = (profile <- transverse_average field ;; integrate profile dx)
  /\ (ndim field = 2%nat ->
      exists profile,
        transverse_average field = Ok profile
        /\ longitudinal_profile field dx = integrate profile dx).
Proof.
  assert (E : longitudinal_profile field dx
              = (profile <- transverse_average field ;; integrate profile dx)).
  { unfold longitudinal_profile, bind.
    destruct (transverse_average field) as [profile | e]; [| reflexivity].
    now destruct (integrate profile dx). }
  split; [exact E |].
  intros Hrank. exists (Numpy.mean_axis1 field).
  split; [now apply transverse_average_rank2 |].
  rewrite E, transverse_average_rank2 by assumption. reflexivity.
Qed.

Lemma longitudinal_profile_composition_witness :
  exists profile,
    transverse_average (array2 3 [[1; 2; 3]; [4; 5; 6]]) = Ok profile
    /\ longitudinal_profile (array2 3 [[1; 2; 3]; [4; 5; 6]]) 1 = integrate profile 1.
Proof.
  apply (longitudinal_profile_composition (array2 3 [[1; 2; 3]; [4; 5; 6]]) 1).
  reflexivity.
Defined.

(** ** Worked inputs *)

Ltac run_integration :=
  cbv [integrate ndim array1 shape flat Numpy.flip Numpy.negative
       Scipy.cumulative_simpson Scipy.cumulatively_sum_simpson_integrals
       Scipy.cumulative_simpson_equal_intervals Scipy.simpson_h1
       Scipy.cumulative_trapezoid
       Numpy.drop_last Numpy.set_last Numpy.set_slice2 Numpy.set_stride2
       Numpy.stride2 Numpy.empty Numpy.cumsum Numpy.cumsum_from Numpy.zip_with
       bind negb length Nat.ltb Nat.leb Nat.eqb Nat.sub
       repeat firstn skipn rev app last map].

Ltac same_reals := repeat (f_equal; try (field; fail); try lra).

(** An empty profile passes the rank check and is refused by scipy. *)
Lemma integrate_empty_raises (dx : R) :
  integrate (array1 []) dx = Raise (ValueError AtLeastOnePoint).
Proof. reflexivity. Qed.

(** The Simpson scheme is exact on the squares, with an odd and with an
    even number of samples. *)
Example cumulative_simpson_squares_5 :
  Scipy.cumulative_simpson [0; 1; 4; 9; 16] 1 (Some 0)
  = Ok [0; 1 / 3; 8 / 3; 9; 64 / 3].
Proof. run_integration. same_reals. Qed.

Example cumulative_simpson_squares_4 :
  Scipy.cumulative_simpson [0; 1; 4; 9] 1 (Some 0) = Ok [0; 1 / 3; 8 / 3; 9].
Proof. run_integration. same_reals. Qed.

(** Two samples: one linear interval. *)
Example integrate_two_samples :
  integrate (array1 [2; 5]) 1 = Ok (array1 [- (7 / 2); 0]).
Proof. run_integration. unfold array1. same_reals. Qed.

(** A constant profile: the integral grows in magnitude towards the left
    and ends at 0 on the right. *)
Example integrate_constant_profile :
  integrate (array1 [1; 1; 1; 1]) 1 = Ok (array1 [-3; -2; -1; 0]).
Proof. run_integration. unfold array1. same_reals. Qed.

(** The pipeline on the 2 x 3 field of the transverse-average example. *)
Example longitudinal_profile_2x3 :
  longitudinal_profile (array2 3 [[1; 2; 3]; [4; 5; 6]]) 1
  = Ok (array1 [- (7 / 2); 0]).
Proof.
  unfold longitudinal_profile, transverse_average, array2, Numpy.mean_axis1,
    Numpy.add_reduce.
  cbn [ndim shape flat length Nat.eqb negb concat app Numpy.rows_of firstn skipn
       map fold_left INR].
  replace ((0 + 1 + 2 + 3) / (1 + 1 + 1)) with 2 by field.
  replace ((0 + 4 + 5 + 6) / (1 + 1 + 1)) with 5 by field.
  change (mk_ndarray [2%nat] [2; 5]) with (array1 [2; 5]).
  now rewrite integrate_two_samples.
Qed.

(** A run of 100 cells, 10 particles per cell, 1 ms per push and 1000
    steps on one CPU: 1000 seconds, or 1000/3600 hours. *)
Example time_estimation_1000 :
  time_estimation 100 10 (1 / 1000) 1000 1 false = Ok 1000
  /\ time_estimation 100 10 (1 / 1000) 1000 1 true = Ok (1000 / 3600).
Proof.
  rewrite !time_estimation_nonzero by lra. split; f_equal; field.
Qed.

(** * Further properties of the code *)

(** ** The Courant limit: symmetry, signs, bound, scaling *)

(** X1: the limit does not depend on the order of the two spacings, failures
    included. *)
Theorem courant2D_symmetric (dx dy : R) : courant2D dx dy = courant2D dy dx.
Proof.
  destruct (Req_dec_T dx 0) as [Ex | Nx].
  - rewrite !courant2D_zero by tauto. reflexivity.
  - destruct (Req_dec_T dy 0) as [Ey | Ny].
    + rewrite !courant2D_zero by tauto. reflexivity.
    + rewrite !courant2D_nonzero by assumption.
      now rewrite Rplus_comm.
Qed.

(** X2: only the magnitudes of the spacings matter: a negative spacing gives
    the limit of its absolute value. *)
Theorem courant2D_sign_blind (dx dy : R) :
  courant2D dx dy = courant2D (Rabs dx) (Rabs dy).
Proof. unfold courant2D. now rewrite !pow2_abs. Qed.

Lemma inv_sq_as_sq_inv_abs (x : R) : x <> 0 -> 1 / x ^ 2 = (/ Rabs x) ^ 2.
Proof.
  intros Hx. rewrite <- (pow2_abs x).
  assert (Rabs x <> 0) by now apply Rabs_no_R0.
  field. assumption.
Qed.

(** X3: the limit is positive and strictly below each of the two spacings'
    magnitudes. *)
Theorem courant2D_below_spacings (dx dy : R) :
  dx <> 0 -> dy <> 0 ->
  exists dt,
    courant2D dx dy = Ok dt /\ 0 < dt /\ dt < Rabs dx /\ dt < Rabs dy.
Proof.
  intros Hx Hy. eexists. split; [now apply courant2D_nonzero |].
  pose proof (inv_sq_pos dx Hx) as Px. pose proof (inv_sq_pos dy Hy) as Py.
  assert (Ax : 0 < Rabs dx) by now apply Rabs_pos_lt.
  assert (Ay : 0 < Rabs dy) by now apply Rabs_pos_lt.
  set (s := 1 / dx ^ 2 + 1 / dy ^ 2) in *.
  assert (Q : 0 < sqrt s) by (apply sqrt_lt_R0; unfold s; lra).
  assert (Bx : / Rabs dx < sqrt s).
  { rewrite <- (sqrt_pow2 (/ Rabs dx)) by (left; now apply Rinv_0_lt_compat).
    apply sqrt_lt_1_alt. rewrite <- inv_sq_as_sq_inv_abs by assumption.
    unfold s. split; lra. }
  assert (By : / Rabs dy < sqrt s).
  { rewrite <- (sqrt_pow2 (/ Rabs dy)) by (left; now apply Rinv_0_lt_compat).
    apply sqrt_lt_1_alt. rewrite <- inv_sq_as_sq_inv_abs by assumption.
    unfold s. split; lra. }
  assert (below : forall w, 0 < w -> / w < sqrt s -> 1 / sqrt s < w).
  { intros w Hw Hlt.
    apply (Rmult_lt_reg_r (sqrt s)); [exact Q |].
    replace (1 / sqrt s * sqrt s) with 1 by (field; lra).
    apply (Rmult_lt_compat_l w) in Hlt; [| exact Hw].
    replace (w * / w) with 1 in Hlt by (field; lra). exact Hlt. }
  split; [apply Rdiv_lt_0_compat; lra |].
  split; now apply below.
Qed.

Lemma courant2D_below_spacings_witness :
  exists dt, courant2D (-3) 4 = Ok dt /\ 0 < dt /\ dt < Rabs (-3) /\ dt < Rabs 4.
Proof. apply (courant2D_below_spacings (-3) 4); lra. Defined.

(** X4: refining or coarsening both spacings by a factor [k] changes the limit
    by the factor [|k|]; it fails on the same inputs. *)
Theorem courant2D_scaling (k dx dy : R) :
  k <> 0 ->
  courant2D (k * dx) (k * dy) = (dt <- courant2D dx dy ;; Ok (Rabs k * dt)).
Proof.
  intros Hk.
  destruct (Req_dec_T dx 0) as [Ex | Nx].
  { rewrite (courant2D_zero dx dy) by tauto.
    rewrite courant2D_zero; [reflexivity | left; subst dx; ring]. }
  destruct (Req_dec_T dy 0) as [Ey | Ny].
  { rewrite (courant2D_zero dx dy) by tauto.
    rewrite courant2D_zero; [reflexivity | right; subst dy; ring]. }
  assert (Nkx : k * dx <> 0) by now apply Rmult_integral_contrapositive_currified.
  assert (Nky : k * dy <> 0) by now apply Rmult_integral_contrapositive_currified.
  rewrite !courant2D_nonzero by assumption. cbn [bind]. f_equal.
  assert (Ak : 0 < Rabs k) by now apply Rabs_pos_lt.
  pose proof (inv_sq_pos dx Nx) as Px. pose proof (inv_sq_pos dy Ny) as Py.
  set (s := 1 / dx ^ 2 + 1 / dy ^ 2) in *.
  assert (Q : 0 < sqrt s) by (apply sqrt_lt_R0; unfold s; lra).
  replace (1 / (k * dx) ^ 2 + 1 / (k * dy) ^ 2) with ((/ Rabs k) ^ 2 * s).
  - rewrite sqrt_mult_alt by (apply pow2_ge_0).
    rewrite sqrt_pow2 by (left; now apply Rinv_0_lt_compat).
    field. split; lra.
  - rewrite <- (inv_sq_as_sq_inv_abs k) by assumption.
    unfold s. field. repeat split; assumption.
Qed.

Lemma courant2D_scaling_witness :
  courant2D (-2 * 3) (-2 * 4) = (dt <- courant2D 3 4 ;; Ok (Rabs (-2) * dt)).
Proof. apply (courant2D_scaling (-2) 3 4). lra. Defined.

(** ** Run time: hours and processor count *)

(** X6: the estimate in hours is the estimate in seconds over 3600, and [k]
    times the processors give the estimate over [k]; both fail on the same
    inputs as the plain call. *)
Theorem time_estimation_scaling (n_cells ppc push_time t_steps n_cpu k : R) (hours : bool) :
  k <> 0 ->
  time_estimation n_cells ppc push_time t_steps n_cpu true
  = (t <- time_estimation n_cells ppc push_time t_steps n_cpu false ;; Ok (t / 3600))
  /\ time_estimation n_cells ppc push_time t_steps (k * n_cpu) hours
     = (t <- time_estimation n_cells ppc push_time t_steps n_cpu hours ;; Ok (t / k)).
Proof.
  intros Hk.
  destruct (Req_dec_T n_cpu 0) as [E | N].
  - subst n_cpu. rewrite Rmult_0_r, !time_estimation_zero. split; reflexivity.
  - assert (Nk : k * n_cpu <> 0) by now apply Rmult_integral_contrapositive_currified.
    rewrite !time_estimation_nonzero by assumption. cbn [bind].
    split; [reflexivity |].
    f_equal. destruct hours; field; split; assumption.
Qed.

Lemma time_estimation_scaling_witness :
  time_estimation 100 10 (1 / 1000) 1000 (4 * 2) true
  = (t <- time_estimation 100 10 (1 / 1000) 1000 2 true ;; Ok (t / 4)).
Proof. apply (time_estimation_scaling 100 10 (1 / 1000) 1000 2 4 true). lra. Defined.

(** ** The transverse average: shape, range, linearity *)

Section TransverseAverage.

Import Numpy.

Lemma add_reduce_cons (x : R) (l : list R) : add_reduce (x :: l) = x + add_reduce l.
Proof.
  unfold add_reduce. cbn [fold_left]. rewrite fold_left_Rplus_acc. lra.
Qed.

Lemma add_reduce_map_scale (k : R) (l : list R) :
  add_reduce (map (Rmult k) l) = k * add_reduce l.
Proof.
  induction l as [| x l IH].
  - unfold add_reduce. simpl. lra.
  - cbn [map]. rewrite !add_reduce_cons, IH. lra.
Qed.

Lemma add_reduce_zip_plus (l1 l2 : list R) :
  length l1 = length l2 ->
  add_reduce (zip_with Rplus l1 l2) = add_reduce l1 + add_reduce l2.
Proof.
  revert l2. induction l1 as [| x l1 IH]; intros [| y l2] H; simpl in H; try discriminate.
  - unfold add_reduce. simpl. lra.
  - cbn [zip_with]. rewrite !add_reduce_cons, IH by congruence. lra.
Qed.

Lemma add_reduce_range (lo hi : R) (l : list R) :
  Forall (fun x => lo <= x <= hi) l ->
  INR (length l) * lo <= add_reduce l <= INR (length l) * hi.
Proof.
  induction 1 as [| x l Hx _ IH].
  - unfold add_reduce. simpl. lra.
  - rewrite add_reduce_cons. cbn [length]. rewrite S_INR. lra.
Qed.

Lemma Forall_firstn_R (P : R -> Prop) (k : nat) (l : list R) :
  Forall P l -> Forall P (firstn k l).
Proof.
  intros H. rewrite <- (firstn_skipn k l) in H. now apply Forall_app in H.
Qed.

Lemma Forall_skipn_R (P : R -> Prop) (k : nat) (l : list R) :
  Forall P l -> Forall P (skipn k l).
Proof.
  intros H. rewrite <- (firstn_skipn k l) in H. now apply Forall_app in H.
Qed.

(** Every row cut from a buffer of [r * c] elements has [c] elements, and
    they are elements of the buffer. *)
Lemma rows_of_Forall (P : R -> Prop) (r c : nat) (buf : list R) :
  length buf = (r * c)%nat -> Forall P buf ->
  Forall (fun row => length row = c /\ Forall P row) (rows_of r c buf).
Proof.
  revert buf. induction r as [| r IH]; intros buf Hlen HP; cbn [rows_of].
  - constructor.
  - constructor.
    + split; [rewrite length_firstn; lia | now apply Forall_firstn_R].
    + apply IH; [rewrite length_skipn; lia | now apply Forall_skipn_R].
Qed.

Lemma rows_of_map (f : R -> R) (r c : nat) (buf : list R) :
  rows_of r c (map f buf) = map (map f) (rows_of r c buf).
Proof.
  revert buf. induction r as [| r IH]; intros buf; cbn [rows_of map]; [reflexivity |].
  now rewrite firstn_map, skipn_map, IH.
Qed.

Lemma zip_with_firstn (f : R -> R -> R) (k : nat) (l1 l2 : list R) :
  firstn k (zip_with f l1 l2) = zip_with f (firstn k l1) (firstn k l2).
Proof.
  revert l1 l2. induction k as [| k IH]; intros [| x l1] [| y l2]; try reflexivity.
  cbn [firstn zip_with]. now rewrite IH.
Qed.

Lemma zip_with_skipn (f : R -> R -> R) (k : nat) (l1 l2 : list R) :
  length l1 = length l2 ->
  skipn k (zip_with f l1 l2) = zip_with f (skipn k l1) (skipn k l2).
Proof.
  revert l1 l2. induction k as [| k IH]; intros [| x l1] [| y l2] H;
    simpl in H; try discriminate; try reflexivity.
  cbn [skipn zip_with]. apply IH. congruence.
Qed.

Lemma rows_of_single_column (buf : list R) :
  rows_of (length buf) 1 buf = map (fun x => [x]) buf.
Proof.
  induction buf as [| x buf IH]; [reflexivity |].
  cbn [length rows_of map firstn skipn]. now rewrite IH.
Qed.

Lemma all_equal_repeat (v : R) (l : list R) :
  Forall (fun m => v <= m <= v) l -> l = repeat v (length l).
Proof.
  induction 1 as [| x l Hx _ IH]; [reflexivity |].
  cbn [length repeat]. rewrite <- IH. f_equal. lra.
Qed.

Lemma means_in_range (lo hi : R) (r c : nat) (buf : list R) :
  (0 < c)%nat -> length buf = (r * c)%nat ->
  Forall (fun x => lo <= x <= hi) buf ->
  Forall (fun m => lo <= m <= hi)
         (map (fun row => add_reduce row / INR c) (rows_of r c buf)).
Proof.
  intros Hc Hlen Hbuf. apply Forall_map.
  eapply Forall_impl; [| apply (rows_of_Forall _ r c buf Hlen Hbuf)].
  intros row [Hrow Hin]. cbn beta.
  pose proof (add_reduce_range lo hi row Hin) as [Hl Hh].
  rewrite Hrow in Hl, Hh.
  assert (Pc : 0 < INR c) by now apply lt_0_INR.
  split.
  - apply (Rmult_le_reg_r (INR c)); [exact Pc |].
    replace (add_reduce row / INR c * INR c) with (add_reduce row) by (field; lra). lra.
  - apply (Rmult_le_reg_r (INR c)); [exact Pc |].
    replace (add_reduce row / INR c * INR c) with (add_reduce row) by (field; lra). lra.
Qed.

Lemma wf_rank2_length (a : ndarray) (r c : nat) :
  well_formed a -> shape a = [r; c] -> length (flat a) = (r * c)%nat.
Proof. unfold well_formed. intros Hwf Hsh. rewrite Hsh in Hwf. simpl in Hwf. lia. Qed.

Lemma transverse_average_shape2 (a : ndarray) (r c : nat) :
  shape a = [r; c] ->
  transverse_average a
  = Ok (mk_ndarray [r] (map (fun row => add_reduce row / INR c) (rows_of r c (flat a)))).
Proof.
  intros Hsh. rewrite transverse_average_rank2 by (unfold ndim; now rewrite Hsh).
  now rewrite (mean_axis1_rank2 a r c Hsh).
Qed.

(** X7: every 2-D array, well formed or not, yields a well-formed 1-D array
    with one element per row. *)
Theorem transverse_average_well_formed (a : ndarray) :
  ndim a = 2%nat ->
  exists p,
    transverse_average a = Ok p
    /\ ndim p = 1%nat
    /\ well_formed p
    /\ shape p = [nth 0 (shape a) 0%nat].
Proof.
  intros Hrank. unfold ndim in Hrank.
  destruct (shape a) as [| r [| c [| x sh]]] eqn:Hsh; try discriminate Hrank.
  eexists. split; [apply (transverse_average_shape2 a r c Hsh) |].
  unfold ndim, well_formed. cbn [shape flat length nth size_of fold_right].
  rewrite length_map, rows_of_length. repeat split. lia.
Qed.

Lemma transverse_average_well_formed_witness :
  exists p,
    transverse_average (mk_ndarray [2; 3]%nat [1; 2; 3; 4; 5; 6]) = Ok p
    /\ ndim p = 1%nat /\ well_formed p /\ shape p = [2%nat].
Proof.
  apply (transverse_average_well_formed (mk_ndarray [2; 3]%nat [1; 2; 3; 4; 5; 6])).
  reflexivity.
Defined.

(** X8: an average never leaves the range of the field: if every value lies
    between [lo] and [hi], so does every element of the profile. *)
Theorem transverse_average_in_range (a : ndarray) (r c : nat) (lo hi : R) :
  well_formed a -> shape a = [r; c] -> (0 < c)%nat ->
  Forall (fun x => lo <= x <= hi) (flat a) ->
  exists p,
    transverse_average a = Ok p /\ Forall (fun m => lo <= m <= hi) (flat p).
Proof.
  intros Hwf Hsh Hc Hin. eexists. split; [apply (transverse_average_shape2 a r c Hsh) |].
  cbn [flat]. apply means_in_range; try assumption.
  now apply wf_rank2_length.
Qed.

Lemma transverse_average_in_range_witness :
  exists p,
    transverse_average (mk_ndarray [2; 2]%nat [1; 3; 5; 9]) = Ok p
    /\ Forall (fun m => 1 <= m <= 9) (flat p).
Proof.
  apply (transverse_average_in_range (mk_ndarray [2; 2]%nat [1; 3; 5; 9]) 2 2 1 9).
  - reflexivity.
  - reflexivity.
  - lia.
  - cbn [flat]. repeat constructor; lra.
Defined.

(** X9: a field that holds one value everywhere averages to that value in
    every row. *)
Theorem transverse_average_constant_field (a : ndarray) (r c : nat) (v : R) :
  shape a = [r; c] -> (0 < c)%nat -> flat a = repeat v (r * c) ->
  transverse_average a = Ok (mk_ndarray [r] (repeat v r)).
Proof.
  intros Hsh Hc Hflat. rewrite (transverse_average_shape2 a r c Hsh).
  do 2 f_equal.
  assert (Hlen : length (flat a) = (r * c)%nat) by (rewrite Hflat; apply repeat_length).
  assert (Hin : Forall (fun x => v <= x <= v) (flat a)).
  { rewrite Hflat. apply Forall_forall. intros x Hx.
    apply repeat_spec in Hx. subst x. lra. }
  pose proof (all_equal_repeat v _ (means_in_range v v r c (flat a) Hc Hlen Hin)) as E.
  rewrite length_map, rows_of_length in E. exact E.
Qed.

Lemma transverse_average_constant_field_witness :
  transverse_average (mk_ndarray [2; 3]%nat (repeat 7 (2 * 3)))
  = Ok (mk_ndarray [2%nat] (repeat 7 2)).
Proof.
  apply (transverse_average_constant_field (mk_ndarray [2; 3]%nat (repeat 7 (2 * 3))) 2 3 7).
  - reflexivity.
  - lia.
  - reflexivity.
Defined.

(** X10: a field with a single column averages to that column. *)
Theorem transverse_average_single_column (a : ndarray) (r : nat) :
  well_formed a -> shape a = [r; 1%nat] ->
  transverse_average a = Ok (mk_ndarray [r] (flat a)).
Proof.
  intros Hwf Hsh. rewrite (transverse_average_shape2 a r 1 Hsh).
  do 2 f_equal.
  replace r with (length (flat a))
    by (rewrite (wf_rank2_length a r 1 Hwf Hsh); lia).
  rewrite rows_of_single_column, map_map.
  rewrite <- (map_id (flat a)) at 2.
  apply map_ext. intros x. unfold add_reduce. simpl. field.
Qed.

Lemma transverse_average_single_column_witness :
  transverse_average (mk_ndarray [3; 1]%nat [4; 5; 6]) = Ok (mk_ndarray [3%nat] [4; 5; 6]).
Proof.
  apply (transverse_average_single_column (mk_ndarray [3; 1]%nat [4; 5; 6]) 3); reflexivity.
Defined.

Lemma mean_axis1_scale (k : R) (a : ndarray) :
  mean_axis1 (scale k a) = scale k (mean_axis1 a).
Proof.
  unfold mean_axis1, scale. cbn [shape flat].
  destruct (shape a) as [| r [| c [| x sh]]] eqn:Hsh;
    cbn [shape flat]; rewrite ?Hsh; try reflexivity.
  f_equal.
  rewrite rows_of_map, !map_map. apply map_ext. intros row.
  rewrite add_reduce_map_scale. unfold Rdiv. ring.
Qed.

(** X11: averaging commutes with scaling the field, the rank failure
    included. *)
Theorem transverse_average_scale (k : R) (a : ndarray) :
  transverse_average (scale k a) = (p <- transverse_average a ;; Ok (scale k p)).
Proof.
  unfold transverse_average.
  change (ndim (scale k a)) with (ndim a).
  destruct (ndim a =? 2)%nat; cbn [negb bind]; [| reflexivity].
  now rewrite mean_axis1_scale.
Qed.

Lemma mean_rows_zip_plus (r c : nat) (b1 b2 : list R) :
  length b1 = (r * c)%nat -> length b2 = (r * c)%nat ->
  map (fun row => add_reduce row / INR c) (rows_of r c (zip_with Rplus b1 b2))
  = zip_with Rplus
      (map (fun row => add_reduce row / INR c) (rows_of r c b1))
      (map (fun row => add_reduce row / INR c) (rows_of r c b2)).
Proof.
  revert b1 b2. induction r as [| r IH]; intros b1 b2 H1 H2; [reflexivity |].
  cbn [rows_of map zip_with].
  rewrite zip_with_firstn, zip_with_skipn by congruence.
  rewrite IH by (rewrite length_skipn; lia).
  rewrite add_reduce_zip_plus by (rewrite !length_firstn; lia).
  f_equal. unfold Rdiv. ring.
Qed.

(** X12: averaging commutes with adding two fields of one shape. *)
Theorem transverse_average_add (a b : ndarray) (r c : nat) :
  well_formed a -> well_formed b -> shape a = [r; c] -> shape b = [r; c] ->
  transverse_average (add_arrays a b)
  = (pa <- transverse_average a ;; pb <- transverse_average b ;; Ok (add_arrays pa pb)).
Proof.
  intros Wa Wb Sa Sb.
  rewrite (transverse_average_shape2 a r c Sa), (transverse_average_shape2 b r c Sb).
  rewrite (transverse_average_shape2 (add_arrays a b) r c) by exact Sa.
  cbn [bind]. unfold add_arrays. cbn [shape flat]. do 2 f_equal.
  apply mean_rows_zip_plus; now apply wf_rank2_length.
Qed.

Lemma transverse_average_add_witness :
  transverse_average (add_arrays (mk_ndarray [1; 2]%nat [1; 3]) (mk_ndarray [1; 2]%nat [5; 9]))
  = (pa <- transverse_average (mk_ndarray [1; 2]%nat [1; 3]) ;;
     pb <- transverse_average (mk_ndarray [1; 2]%nat [5; 9]) ;;
     Ok (add_arrays pa pb)).
Proof.
  apply (transverse_average_add (mk_ndarray [1; 2]%nat [1; 3])
           (mk_ndarray [1; 2]%nat [5; 9]) 1 2); reflexivity.
Defined.

End TransverseAverage.

(** ** [integrate]: small profiles, linearity *)

Lemma integrate_via_spec (a : ndarray) (dx : R) :
  ndim a = 1%nat -> flat a <> [] ->
  integrate a dx = Ok (array1 (Spec.integrate (flat a) dx)).
Proof.
  intros Hrank Hne.
  rewrite integrate_rank1 by assumption.
  rewrite cumulative_simpson_spec by now apply rev_nonempty.
  cbn [bind]. now rewrite flip_negative_array1.
Qed.

Lemma integrate_rank1_empty (a : ndarray) (dx : R) :
  ndim a = 1%nat -> flat a = [] ->
  integrate a dx = Raise (ValueError AtLeastOnePoint).
Proof.
  intros Hrank He. rewrite integrate_rank1 by assumption. rewrite He. reflexivity.
Qed.

Lemma integrate_not_rank1 (a : ndarray) (dx : R) :
  ndim a <> 1%nat -> integrate a dx = Raise (ValueError (MustBe1D (shape a))).
Proof.
  intros H. unfold integrate.
  destruct (Nat.eqb_spec (ndim a) 1) as [E | _]; [contradiction | reflexivity].
Qed.

(** X13: two samples: the single interval is integrated by the trapezoid rule,
    the fallback of [cumulative_simpson] below three points. *)
Theorem integrate_two_samples_trapezoid (a : ndarray) (dx y0 y1 : R) :
  ndim a = 1%nat -> flat a = [y0; y1] ->
  integrate a dx = Ok (array1 [- (dx * (y0 + y1) / 2); 0]).
Proof.
  intros Hrank Hflat. rewrite integrate_rank1 by assumption. rewrite Hflat.
  run_integration. same_reals.
Qed.

Lemma integrate_two_samples_trapezoid_witness :
  integrate (array1 [2; 5]) 3 = Ok (array1 [- (3 * (2 + 5) / 2); 0]).
Proof.
  apply (integrate_two_samples_trapezoid (array1 [2; 5]) 3 2 5); reflexivity.
Defined.

(** X14: three samples: Simpson's rule over both intervals at the left end,
    the right interval of the same parabola in the middle, 0 at the
    right end. *)
Theorem integrate_three_samples_simpson (a : ndarray) (dx y0 y1 y2 : R) :
  ndim a = 1%nat -> flat a = [y0; y1; y2] ->
  integrate a dx
  = Ok (array1 [- (dx / 3 * (y0 + 4 * y1 + y2));
                - (dx / 12 * (5 * y2 + 8 * y1 - y0));
                0]).
Proof.
  intros Hrank Hflat. rewrite integrate_rank1 by assumption. rewrite Hflat.
  run_integration. same_reals.
Qed.

Lemma integrate_three_samples_simpson_witness :
  integrate (array1 [100; 0; 0]) 1
  = Ok (array1 [- (1 / 3 * (100 + 4 * 0 + 0)); - (1 / 12 * (5 * 0 + 8 * 0 - 100)); 0]).
Proof.
  apply (integrate_three_samples_simpson (array1 [100; 0; 0]) 1 100 0 0); reflexivity.
Defined.

Section CumulativeLinear.

Variable n : nat.

Lemma panel_ext (z z' : nat -> R) (dx : R) (j : nat) :
  (forall i, z i = z' i) -> Spec.panel z n dx j = Spec.panel z' n dx j.
Proof. intros H. unfold Spec.panel. now rewrite !H. Qed.

Lemma cumulative_ext (z z' : nat -> R) (dx : R) (k : nat) :
  (forall i, z i = z' i) -> Spec.cumulative z n dx k = Spec.cumulative z' n dx k.
Proof.
  intros H. induction k as [| k IH]; [reflexivity |].
  cbn [Spec.cumulative]. now rewrite IH, (panel_ext z z' dx k H).
Qed.

Lemma panel_scale (c : R) (z : nat -> R) (dx : R) (j : nat) :
  Spec.panel (fun i => c * z i) n dx j = c * Spec.panel z n dx j.
Proof.
  unfold Spec.panel, Spec.linear_panel, Spec.quadratic_left, Spec.quadratic_right.
  destruct (n <? 3)%nat; [field |].
  destruct (Nat.even j && (j + 2 <? n)%nat); field.
Qed.

Lemma cumulative_scale (c : R) (z : nat -> R) (dx : R) (k : nat) :
  Spec.cumulative (fun i => c * z i) n dx k = c * Spec.cumulative z n dx k.
Proof.
  induction k as [| k IH]; cbn [Spec.cumulative]; [ring |].
  rewrite IH, panel_scale. ring.
Qed.

Lemma panel_scale_dx (c : R) (z : nat -> R) (dx : R) (j : nat) :
  Spec.panel z n (c * dx) j = c * Spec.panel z n dx j.
Proof.
  unfold Spec.panel, Spec.linear_panel, Spec.quadratic_left, Spec.quadratic_right.
  destruct (n <? 3)%nat; [field |].
  destruct (Nat.even j && (j + 2 <? n)%nat); field.
Qed.

Lemma cumulative_scale_dx (c : R) (z : nat -> R) (dx : R) (k : nat) :
  Spec.cumulative z n (c * dx) k = c * Spec.cumulative z n dx k.
Proof.
  induction k as [| k IH]; cbn [Spec.cumulative]; [ring |].
  rewrite IH, panel_scale_dx. ring.
Qed.

Lemma panel_add (z1 z2 : nat -> R) (dx : R) (j : nat) :
  Spec.panel (fun i => z1 i + z2 i) n dx j
  = Spec.panel z1 n dx j + Spec.panel z2 n dx j.
Proof.
  unfold Spec.panel, Spec.linear_panel, Spec.quadratic_left, Spec.quadratic_right.
  destruct (n <? 3)%nat; [field |].
  destruct (Nat.even j && (j + 2 <? n)%nat); field.
Qed.

Lemma cumulative_add (z1 z2 : nat -> R) (dx : R) (k : nat) :
  Spec.cumulative (fun i => z1 i + z2 i) n dx k
  = Spec.cumulative z1 n dx k + Spec.cumulative z2 n dx k.
Proof.
  induction k as [| k IH]; cbn [Spec.cumulative]; [ring |].
  rewrite IH, panel_add. ring.
Qed.

End CumulativeLinear.

Lemma nth_map_scale (c : R) (l : list R) (i : nat) :
  nth i (map (Rmult c) l) 0 = c * nth i l 0.
Proof.
  revert i. induction l as [| x l IH]; intros [| i]; cbn [map nth]; try ring.
  apply IH.
Qed.

Lemma nth_zip_plus (l1 l2 : list R) (i : nat) :
  length l1 = length l2 ->
  nth i (Numpy.zip_with Rplus l1 l2) 0 = nth i l1 0 + nth i l2 0.
Proof.
  revert l2 i. induction l1 as [| x l1 IH]; intros [| y l2] i H;
    simpl in H; try discriminate.
  - destruct i; simpl; ring.
  - destruct i as [| i]; cbn [Numpy.zip_with nth]; [reflexivity |].
    apply IH. congruence.
Qed.

Lemma zip_with_length (f : R -> R -> R) (l1 l2 : list R) :
  length l1 = length l2 -> length (Numpy.zip_with f l1 l2) = length l1.
Proof.
  revert l2. induction l1 as [| x l1 IH]; intros [| y l2] H;
    simpl in H; try discriminate; [reflexivity |].
  cbn [Numpy.zip_with length]. f_equal. apply IH. congruence.
Qed.

Lemma spec_integrate_scale (c : R) (y : list R) (dx : R) :
  Spec.integrate (map (Rmult c) y) dx = map (Rmult c) (Spec.integrate y dx).
Proof.
  apply (nth_ext _ _ 0 0).
  - now rewrite length_map, !spec_integrate_length, length_map.
  - rewrite spec_integrate_length, length_map. intros i Hi.
    rewrite nth_map_scale.
    rewrite !spec_integrate_nth by (rewrite ?length_map; exact Hi).
    rewrite length_map, <- map_rev.
    rewrite (cumulative_ext _ _ (fun k => c * nth k (rev y) 0))
      by (intros k; apply nth_map_scale).
    rewrite cumulative_scale. ring.
Qed.

Lemma spec_integrate_scale_dx (c : R) (y : list R) (dx : R) :
  Spec.integrate y (c * dx) = map (Rmult c) (Spec.integrate y dx).
Proof.
  apply (nth_ext _ _ 0 0).
  - now rewrite length_map, !spec_integrate_length.
  - rewrite spec_integrate_length. intros i Hi.
    rewrite nth_map_scale.
    rewrite !spec_integrate_nth by exact Hi.
    rewrite cumulative_scale_dx. ring.
Qed.

Lemma rev_zip_plus_nth (y1 y2 : list R) (k : nat) :
  length y1 = length y2 ->
  nth k (rev (Numpy.zip_with Rplus y1 y2)) 0 = nth k (rev y1) 0 + nth k (rev y2) 0.
Proof.
  intros H.
  destruct (Nat.lt_ge_cases k (length y1)) as [Hk | Hk].
  - rewrite !rev_nth by (rewrite ?zip_with_length; lia).
    rewrite zip_with_length by exact H. rewrite <- H.
    now apply nth_zip_plus.
  - rewrite !nth_overflow by (rewrite length_rev, ?zip_with_length; lia). ring.
Qed.

Lemma spec_integrate_add (y1 y2 : list R) (dx : R) :
  length y1 = length y2 ->
  Spec.integrate (Numpy.zip_with Rplus y1 y2) dx
  = Numpy.zip_with Rplus (Spec.integrate y1 dx) (Spec.integrate y2 dx).
Proof.
  intros H.
  assert (L : length (Numpy.zip_with Rplus (Spec.integrate y1 dx) (Spec.integrate y2 dx))
              = length y1)
    by (rewrite zip_with_length; rewrite !spec_integrate_length; congruence).
  apply (nth_ext _ _ 0 0).
  - rewrite L, spec_integrate_length. now apply zip_with_length.
  - rewrite spec_integrate_length, zip_with_length by exact H. intros i Hi.
    rewrite nth_zip_plus by (rewrite !spec_integrate_length; exact H).
    rewrite !spec_integrate_nth by (rewrite ?zip_with_length; lia).
    rewrite zip_with_length by exact H. rewrite <- H.
    rewrite (cumulative_ext _ _ (fun k => nth k (rev y1) 0 + nth k (rev y2) 0))
      by (intros k; now apply rev_zip_plus_nth).
    rewrite cumulative_add. ring.
Qed.

Lemma scale_array1 (c : R) (l : list R) : scale c (array1 l) = array1 (map (Rmult c) l).
Proof. unfold scale, array1. cbn [shape flat]. now rewrite length_map. Qed.

(** X15: integration commutes with scaling the profile, both failures
    included. *)
Theorem integrate_scale_profile (c : R) (a : ndarray) (dx : R) :
  integrate (scale c a) dx = (v <- integrate a dx ;; Ok (scale c v)).
Proof.
  destruct (Nat.eq_dec (ndim a) 1) as [Hrank | Hrank].
  - destruct (flat a) as [| x l] eqn:Hflat.
    + rewrite !integrate_rank1_empty; try assumption; try reflexivity.
      unfold scale. cbn [flat]. now rewrite Hflat.
    + rewrite !integrate_via_spec; try assumption.
      * cbn [bind]. unfold scale at 1. cbn [flat].
        now rewrite spec_integrate_scale, scale_array1.
      * rewrite Hflat. discriminate.
      * unfold scale. cbn [flat]. rewrite Hflat. discriminate.
  - rewrite !integrate_not_rank1 by assumption. reflexivity.
Qed.

(** X16: integration commutes with scaling the spacing: a spacing [c * dx]
    gives [c] times the result for [dx].  Nothing is required of the
    spacing: a negative one flips the sign, 0 gives zeros. *)
Theorem integrate_scale_spacing (c : R) (a : ndarray) (dx : R) :
  integrate a (c * dx) = (v <- integrate a dx ;; Ok (scale c v)).
Proof.
  destruct (Nat.eq_dec (ndim a) 1) as [Hrank | Hrank].
  - destruct (flat a) as [| x l] eqn:Hflat.
    + rewrite !integrate_rank1_empty; try assumption; reflexivity.
    + rewrite !integrate_via_spec; try assumption; try (rewrite Hflat; discriminate).
      cbn [bind]. now rewrite spec_integrate_scale_dx, scale_array1.
  - rewrite !integrate_not_rank1 by assumption. reflexivity.
Qed.

(** X17: integration commutes with adding two profiles of one length. *)
Theorem integrate_add_profiles (a b : ndarray) (dx : R) :
  ndim a = 1%nat -> ndim b = 1%nat -> length (flat a) = length (flat b) ->
  integrate (add_arrays a b) dx
  = (va <- integrate a dx ;; vb <- integrate b dx ;; Ok (add_arrays va vb)).
Proof.
  intros Ra Rb Hlen.
  destruct (Nat.eq_dec (length (flat a)) 0) as [Hz | Hz].
  - assert (Ea : flat a = []) by now apply length_zero_iff_nil.
    rewrite (integrate_rank1_empty a) by assumption.
    apply integrate_rank1_empty; [exact Ra |].
    unfold add_arrays. cbn [flat]. now rewrite Ea.
  - assert (Na : flat a <> []) by (intros E; rewrite E in Hz; now apply Hz).
    assert (Nb : flat b <> []) by (intros E; rewrite E in Hlen; simpl in Hlen; lia).
    assert (Lz : length (Numpy.zip_with Rplus (flat a) (flat b)) = length (flat a))
      by now apply zip_with_length.
    rewrite (integrate_via_spec a), (integrate_via_spec b) by assumption.
    rewrite integrate_via_spec.
    + cbn [bind]. unfold add_arrays. cbn [flat shape].
      rewrite spec_integrate_add by exact Hlen.
      unfold array1. f_equal. f_equal.
      rewrite zip_with_length by (rewrite !spec_integrate_length; exact Hlen).
      reflexivity.
    + exact Ra.
    + unfold add_arrays. cbn [flat]. intros E. rewrite E in Lz. simpl in Lz. lia.
Qed.

Lemma integrate_add_profiles_witness :
  integrate (add_arrays (array1 [1; 2; 3]) (array1 [4; 0; 1])) 1
  = (va <- integrate (array1 [1; 2; 3]) 1 ;;
     vb <- integrate (array1 [4; 0; 1]) 1 ;; Ok (add_arrays va vb)).
Proof.
  apply (integrate_add_profiles (array1 [1; 2; 3]) (array1 [4; 0; 1]) 1); reflexivity.
Defined.

(** ** [integrate]: exactness on lines and parabolas *)

Section Exactness.

Variables a b c x0 dx : R.
Variable n : nat.

Lemma sampled_length (p : R -> R) : length (sampled p x0 dx n) = n.
Proof. unfold sampled. now rewrite length_map, length_seq. Qed.

Lemma sampled_nth (p : R -> R) (i : nat) :
  (i < n)%nat -> nth i (sampled p x0 dx n) 0 = p (x0 + INR i * dx).
Proof. intros Hi. unfold sampled. now rewrite nth_map_seq. Qed.

(** Read from the right end, the samples sit at [xr - k * dx]. *)
Lemma rev_sampled_nth (p : R -> R) (k : nat) :
  (k < n)%nat ->
  nth k (rev (sampled p x0 dx n)) 0 = p (x0 + INR (n - 1) * dx - INR k * dx).
Proof.
  intros Hk. rewrite rev_nth by (rewrite sampled_length; exact Hk).
  rewrite sampled_length, sampled_nth by lia.
  f_equal. replace (n - S k)%nat with (n - 1 - k)%nat by lia.
  rewrite (minus_INR (n - 1) k) by lia. ring.
Qed.

(** On the samples of a parabola the accumulator is the increment of the
    antiderivative; with fewer than three samples this needs the parabola
    to be a line. *)
Lemma cumulative_parabola (k : nat) :
  (3 <= n)%nat \/ a = 0 -> (k < n)%nat ->
  Spec.cumulative (fun j => nth j (rev (sampled (parabola a b c) x0 dx n)) 0) n dx k
  = parabola_primitive a b c (x0 + INR (n - 1) * dx)
    - parabola_primitive a b c (x0 + INR (n - 1) * dx - INR k * dx).
Proof.
  intros Hn. induction k as [| k IH]; intros Hk.
  - cbn [Spec.cumulative]. change (INR 0) with 0. unfold parabola_primitive. field.
  - cbn [Spec.cumulative]. rewrite IH by lia. clear IH.
    set (xr := x0 + INR (n - 1) * dx).
    unfold Spec.panel.
    destruct (Nat.ltb_spec n 3) as [Hsmall | Hbig].
    + destruct Hn as [Hn | Ha]; [lia |].
      rewrite !rev_sampled_nth by lia. fold xr.
      rewrite ?plus_INR, ?S_INR. change (INR 0) with 0.
      unfold Spec.linear_panel, parabola, parabola_primitive. rewrite Ha. field.
    + destruct (Nat.even k && (k + 2 <? n)%nat) eqn:Hbranch.
      * apply andb_prop in Hbranch. destruct Hbranch as [_ Hlt].
        apply Nat.ltb_lt in Hlt.
        rewrite !rev_sampled_nth by lia. fold xr.
        rewrite ?plus_INR, ?S_INR. change (INR 0) with 0.
        unfold Spec.quadratic_left, parabola, parabola_primitive. field.
      * destruct k as [| k].
        { cbn [Nat.even andb] in Hbranch. apply Nat.ltb_ge in Hbranch. lia. }
        replace (S k - 1)%nat with k by lia.
        rewrite !rev_sampled_nth by lia. fold xr.
        rewrite ?plus_INR, ?S_INR. change (INR 0) with 0.
        unfold Spec.quadratic_right, parabola, parabola_primitive. field.
Qed.

Lemma integrate_sampled_parabola :
  (3 <= n)%nat \/ (a = 0 /\ (1 <= n)%nat) ->
  integrate (array1 (sampled (parabola a b c) x0 dx n)) dx
  = Ok (array1 (map (fun i => parabola_primitive a b c (x0 + INR i * dx)
                              - parabola_primitive a b c (x0 + INR (n - 1) * dx))
                    (seq 0 n))).
Proof.
  intros Hn.
  assert (Hpos : (1 <= n)%nat) by (destruct Hn as [H | [_ H]]; lia).
  assert (Hn' : (3 <= n)%nat \/ a = 0) by (destruct Hn as [H | [H _]]; [now left | now right]).
  rewrite integrate_via_spec.
  - cbn [array1 flat]. do 2 f_equal.
    apply (nth_ext _ _ 0 0).
    + now rewrite spec_integrate_length, sampled_length, length_map, length_seq.
    + rewrite spec_integrate_length, sampled_length. intros i Hi.
      rewrite spec_integrate_nth by (rewrite sampled_length; exact Hi).
      rewrite sampled_length, nth_map_seq by exact Hi.
      rewrite cumulative_parabola by (try exact Hn'; lia).
      replace (x0 + INR (n - 1) * dx - INR (n - S i) * dx) with (x0 + INR i * dx).
      * ring.
      * replace (n - S i)%nat with (n - 1 - i)%nat by lia.
        rewrite (minus_INR (n - 1) i) by lia. ring.
  - reflexivity.
  - cbn [array1 flat]. intros E.
    pose proof (sampled_length (parabola a b c)) as L. rewrite E in L. simpl in L. lia.
Qed.

End Exactness.

(** X18: with at least three samples the scheme is exact on parabolas: element
    [i] is the antiderivative at sample [i] minus its value at the last
    sample, that is, minus the integral from sample [i] to the right end. *)
Theorem integrate_exact_on_parabolas (a b c x0 dx : R) (n : nat) :
  (3 <= n)%nat ->
  integrate (array1 (sampled (parabola a b c) x0 dx n)) dx
  = Ok (array1 (map (fun i => parabola_primitive a b c (x0 + INR i * dx)
                              - parabola_primitive a b c (x0 + INR (n - 1) * dx))
                    (seq 0 n))).
Proof. intros Hn. apply integrate_sampled_parabola. now left. Qed.

Lemma integrate_exact_on_parabolas_witness :
  integrate (array1 (sampled (parabola 1 0 0) 0 1 4)) 1
  = Ok (array1 (map (fun i => parabola_primitive 1 0 0 (0 + INR i * 1)
                              - parabola_primitive 1 0 0 (0 + INR (4 - 1) * 1))
                    (seq 0 4))).
Proof. apply (integrate_exact_on_parabolas 1 0 0 0 1 4). lia. Defined.

(** X19: on the samples of a line [b * t + c] the scheme is exact for every
    number of samples from one on, the trapezoid fallback included. *)
Theorem integrate_exact_on_lines (b c x0 dx : R) (n : nat) :
  (1 <= n)%nat ->
  integrate (array1 (sampled (fun t => b * t + c) x0 dx n)) dx
  = Ok (array1 (map (fun i => (b * (x0 + INR i * dx) ^ 2 / 2 + c * (x0 + INR i * dx))
                              - (b * (x0 + INR (n - 1) * dx) ^ 2 / 2
                                 + c * (x0 + INR (n - 1) * dx)))
                    (seq 0 n))).
Proof.
  intros Hn.
  replace (sampled (fun t => b * t + c) x0 dx n) with (sampled (parabola 0 b c) x0 dx n)
    by (unfold sampled, parabola; apply map_ext; intros i; ring).
  rewrite integrate_sampled_parabola by (right; split; [reflexivity | exact Hn]).
  do 2 f_equal. apply map_ext. intros i. unfold parabola_primitive. field.
Qed.

Lemma integrate_exact_on_lines_witness :
  integrate (array1 (sampled (fun t => 2 * t + 1) 0 1 2)) 1
  = Ok (array1 (map (fun i => (2 * (0 + INR i * 1) ^ 2 / 2 + 1 * (0 + INR i * 1))
                              - (2 * (0 + INR (2 - 1) * 1) ^ 2 / 2
                                 + 1 * (0 + INR (2 - 1) * 1)))
                    (seq 0 2))).
Proof. apply (integrate_exact_on_lines 2 1 0 1 2). lia. Defined.

(** ** [integrate]: the total is the composite Simpson sum *)

Lemma composite_simpson_ext (z z' : nat -> R) (dx : R) (m : nat) :
  (forall i, (i <= 2 * m)%nat -> z i = z' i) ->
  Spec.composite_simpson z dx m = Spec.composite_simpson z' dx m.
Proof.
  induction m as [| m IH]; intros H; [reflexivity |].
  cbn [Spec.composite_simpson].
  rewrite IH by (intros i Hi; apply H; lia).
  rewrite !H by lia. reflexivity.
Qed.

Lemma composite_simpson_shift (z : nat -> R) (dx : R) (m : nat) :
  Spec.composite_simpson z dx (S m)
  = dx / 3 * (z 0%nat + 4 * z 1%nat + z 2%nat)
    + Spec.composite_simpson (fun i => z (i + 2)%nat) dx m.
Proof.
  induction m as [| m IH].
  - cbn [Spec.composite_simpson Nat.mul Nat.add]. field.
  - cbn [Spec.composite_simpson] in IH |- *. rewrite IH.
    replace (2 * S m + 1)%nat with (2 * m + 1 + 2)%nat by lia.
    replace (2 * S m + 2)%nat with (2 * m + 2 + 2)%nat by lia.
    replace (2 * S m)%nat with (2 * m + 2)%nat by lia.
    field.
Qed.

(** The composite Simpson sum reads the same from either end. *)
Lemma composite_simpson_reverse (z : nat -> R) (dx : R) (m : nat) :
  Spec.composite_simpson (fun k => z (2 * m - k)%nat) dx m
  = Spec.composite_simpson z dx m.
Proof.
  revert z. induction m as [| m IH]; intros z; [reflexivity |].
  rewrite (composite_simpson_shift z).
  rewrite <- (IH (fun i => z (i + 2)%nat)).
  cbn [Spec.composite_simpson].
  rewrite (composite_simpson_ext _ (fun k => z (2 * m - k + 2)%nat))
    by (intros i Hi; f_equal; lia).
  replace (2 * S m - 2 * m)%nat with 2%nat by lia.
  replace (2 * S m - (2 * m + 1))%nat with 1%nat by lia.
  replace (2 * S m - (2 * m + 2))%nat with 0%nat by lia.
  field.
Qed.

(** X20: with an odd number [2 m + 1 >= 3] of samples, the first element of
    the result is minus the classical composite Simpson sum
    [dx/3 * (y0 + 4 y1 + 2 y2 + ... + 4 y(2m-1) + y(2m))] of the
    profile. *)
Theorem integrate_total_composite_simpson (a : ndarray) (dx : R) (m : nat) :
  ndim a = 1%nat -> (1 <= m)%nat -> length (flat a) = (2 * m + 1)%nat ->
  exists v,
    integrate a dx = Ok v
    /\ nth 0 (flat v) 0 = - Spec.composite_simpson (fun i => nth i (flat a) 0) dx m.
Proof.
  intros Hrank Hm Hlen. eexists. split.
  - apply integrate_via_spec; [exact Hrank |].
    intros E. rewrite E in Hlen. simpl in Hlen. lia.
  - cbn [array1 flat].
    rewrite spec_integrate_nth by lia. f_equal.
    rewrite Hlen. replace (2 * m + 1 - 1)%nat with (2 * m)%nat by lia.
    rewrite cumulative_even_composite by lia.
    rewrite <- (composite_simpson_reverse (fun i => nth i (flat a) 0)).
    apply composite_simpson_ext. intros i Hi.
    rewrite rev_nth by lia. f_equal. lia.
Qed.

Lemma integrate_total_composite_simpson_witness :
  exists v,
    integrate (array1 [1; 4; 9; 16; 25]) 1 = Ok v
    /\ nth 0 (flat v) 0
       = - Spec.composite_simpson (fun i => nth i [1; 4; 9; 16; 25] 0) 1 2.
Proof.
  apply (integrate_total_composite_simpson (array1 [1; 4; 9; 16; 25]) 1 2).
  - reflexivity.
  - lia.
  - reflexivity.
Defined.

(** ** The two reductions in sequence *)

Lemma integrate_nonempty_ok (p : ndarray) (dx : R) :
  ndim p = 1%nat -> flat p <> [] ->
  exists v,
    integrate p dx = Ok v
    /\ shape v = [length (flat p)]
    /\ length (flat v) = length (flat p)
    /\ last (flat v) 1 = 0.
Proof.
  intros Hrank Hne.
  rewrite integrate_rank1 by assumption.
  destruct (cumulative_simpson_starts_at_zero (rev (flat p)) dx) as (rest & E & Hrest);
    [now apply rev_nonempty |].
  rewrite length_rev in Hrest.
  assert (Hpos : (1 <= length (flat p))%nat)
    by (destruct (flat p); [now elim Hne | simpl; lia]).
  rewrite E. cbn [bind]. rewrite flip_negative_array1.
  eexists. split; [reflexivity |].
  unfold array1. cbn [shape flat map rev].
  rewrite length_app, length_rev, length_map, Hrest. cbn [length].
  split; [f_equal; lia |]. split; [lia |].
  rewrite last_last. apply Ropp_0.
Qed.

(** X22: feeding [transverse_average] into [integrate]: a field with no rows is
    averaged to an empty profile, which the integration refuses; a field
    with at least one row always goes through, to one value per row, the
    last of them 0. *)
Theorem average_then_integrate (a : ndarray) (dx : R) (r c : nat) :
  shape a = [r; c] ->
  (r = 0%nat ->
   (p <- transverse_average a ;; integrate p dx) = Raise (ValueError AtLeastOnePoint))
  /\ ((1 <= r)%nat ->
      exists v,
        (p <- transverse_average a ;; integrate p dx) = Ok v
        /\ shape v = [r] /\ length (flat v) = r /\ last (flat v) 1 = 0).
Proof.
  intros Hsh. rewrite (transverse_average_shape2 a r c Hsh). cbn [bind].
  set (p := mk_ndarray [r] _).
  assert (Lp : length (flat p) = r)
    by (unfold p; cbn [flat]; now rewrite length_map, rows_of_length).
  split.
  - intros Hr. apply integrate_rank1_empty; [reflexivity |].
    apply length_zero_iff_nil. lia.
  - intros Hr.
    destruct (integrate_nonempty_ok p dx) as (v & Hv & Hs & Hl & Hz).
    + reflexivity.
    + intros E. rewrite E in Lp. simpl in Lp. lia.
    + exists v. rewrite Hs, Hl, Lp. repeat split; assumption.
Qed.

Lemma average_then_integrate_witness :
  (p <- transverse_average (mk_ndarray [0; 3]%nat []) ;; integrate p 1)
  = Raise (ValueError AtLeastOnePoint)
  /\ exists v,
       (p <- transverse_average (mk_ndarray [2; 2]%nat [1; 3; 5; 9]) ;; integrate p 1) = Ok v
       /\ shape v = [2%nat] /\ length (flat v) = 2%nat /\ last (flat v) 1 = 0.
Proof.
  split.
  - apply (average_then_integrate (mk_ndarray [0; 3]%nat []) 1 0 3); reflexivity.
  - apply (average_then_integrate (mk_ndarray [2; 2]%nat [1; 3; 5; 9]) 1 2 2);
      [reflexivity | lia].
Defined.

(** ** Persistence: the [option] argument *)

(** X23: an [option] that is neither "numpy" nor "pandas" is refused by
    [save_data], which then writes nothing, but accepted by [read_data],
    which reads the file through pandas as if "pandas" had been given. *)
Theorem unknown_option_save_refuses_read_accepts
    {FS D E : Type} (lib : IO.library FS D E)
    (data : D) (name option : String.string) (fs : FS) :
  option <> "numpy"%string -> option <> "pandas"%string ->
  IO.save_data lib data name option fs = (fs, Some IO.OptionValueError)
  /\ IO.read_data lib name option fs = IO.read_data lib name "pandas"%string fs
  /\ IO.read_data lib name option fs = IO.pd_read_csv_values lib name fs.
Proof.
  intros Hn Hp.
  apply String.eqb_neq in Hn. apply String.eqb_neq in Hp.
  unfold IO.save_data, IO.read_data. rewrite Hn, Hp.
  repeat split.
Qed.

Lemma unknown_option_save_refuses_read_accepts_witness :
  IO.save_data IO.toy_library [1; 2] "out.txt"%string "Numpy"%string
    [("out.txt"%string, IO.CsvFile [3])]
  = ([("out.txt"%string, IO.CsvFile [3])], Some IO.OptionValueError)
  /\ IO.read_data IO.toy_library "out.txt"%string "Numpy"%string
       [("out.txt"%string, IO.CsvFile [3])]
     = inl [3].
Proof.
  destruct (unknown_option_save_refuses_read_accepts IO.toy_library [1; 2]
              "out.txt"%string "Numpy"%string [("out.txt"%string, IO.CsvFile [3])])
    as (Hs & _ & Hr); [discriminate | discriminate |].
  split; [exact Hs |]. rewrite Hr. reflexivity.
Defined.

(** ** More on the Courant limit and on constant profiles *)

(** X5: a coarser grid never lowers the limit: the limit grows with either
    spacing. *)
Theorem courant2D_monotone (dx dx' dy : R) :
  0 < dx -> dx <= dx' -> dy <> 0 ->
  exists dt dt',
    courant2D dx dy = Ok dt /\ courant2D dx' dy = Ok dt' /\ dt <= dt'.
Proof.
  intros Hx Hle Hy.
  assert (Nx : dx <> 0) by lra. assert (Nx' : dx' <> 0) by lra.
  do 2 eexists. rewrite !courant2D_nonzero by assumption.
  split; [reflexivity |]. split; [reflexivity |].
  pose proof (inv_sq_pos dx Nx) as Px. pose proof (inv_sq_pos dx' Nx') as Px'.
  pose proof (inv_sq_pos dy Hy) as Py.
  assert (Hinv : 1 / dx' ^ 2 <= 1 / dx ^ 2).
  { unfold Rdiv. rewrite !Rmult_1_l.
    apply Rinv_le_contravar; [simpl; nra | simpl; nra]. }
  assert (Q' : 0 < sqrt (1 / dx' ^ 2 + 1 / dy ^ 2)) by (apply sqrt_lt_R0; lra).
  assert (Hs : sqrt (1 / dx' ^ 2 + 1 / dy ^ 2) <= sqrt (1 / dx ^ 2 + 1 / dy ^ 2))
    by (apply sqrt_le_1_alt; lra).
  set (q := sqrt (1 / dx ^ 2 + 1 / dy ^ 2)) in *.
  set (q' := sqrt (1 / dx' ^ 2 + 1 / dy ^ 2)) in *.
  unfold Rdiv. rewrite !Rmult_1_l.
  apply Rinv_le_contravar; assumption.
Qed.

Lemma courant2D_monotone_witness :
  exists dt dt', courant2D 1 2 = Ok dt /\ courant2D 3 2 = Ok dt' /\ dt <= dt'.
Proof. apply (courant2D_monotone 1 3 2); lra. Defined.

Lemma integrate_depends_on_flat (a : ndarray) (dx : R) :
  ndim a = 1%nat -> integrate a dx = integrate (array1 (flat a)) dx.
Proof.
  intros Hrank. rewrite !integrate_rank1 by (assumption || reflexivity). reflexivity.
Qed.

Lemma sampled_constant (v x0 dx : R) (n : nat) :
  sampled (parabola 0 0 v) x0 dx n = repeat v n.
Proof.
  unfold sampled. generalize 0%nat as s.
  induction n as [| n IH]; intros s; cbn [seq map repeat]; [reflexivity |].
  rewrite IH. f_equal. unfold parabola. ring.
Qed.

(** X21: a constant profile [v] integrates to [- v * dx * (n - 1 - i)] at place
    [i]: for positive [v] and [dx] the values are negative, shrink in
    magnitude from left to right and end at 0. *)
Theorem integrate_constant (a : ndarray) (v dx : R) (n : nat) :
  ndim a = 1%nat -> (1 <= n)%nat -> flat a = repeat v n ->
  integrate a dx
  = Ok (array1 (map (fun i => - (v * dx * INR (n - 1 - i))) (seq 0 n))).
Proof.
  intros Hrank Hn Hflat.
  rewrite integrate_depends_on_flat by assumption.
  rewrite Hflat, <- (sampled_constant v 0 dx n).
  rewrite integrate_sampled_parabola by (right; split; [reflexivity | exact Hn]).
  do 2 f_equal. apply map_ext_in. intros i Hi. apply in_seq in Hi.
  rewrite (minus_INR (n - 1) i) by lia.
  unfold parabola_primitive. field.
Qed.

Lemma integrate_constant_witness :
  integrate (array1 (repeat 2 4)) 3
  = Ok (array1 (map (fun i => - (2 * 3 * INR (4 - 1 - i))) (seq 0 4))).
Proof.
  apply (integrate_constant (array1 (repeat 2 4)) 2 3 4); [reflexivity | lia | reflexivity].
Defined.
